(** * SignalTrigger: the WebSocket ingestion client of n8n-nodes-signal

    A shallow embedding of [nodes/Signal/SignalTrigger.node.ts] (the body of
    [trigger]) and the properties of its dedup window, its content filter,
    its reconnect logic and its stop function.

    Modelling choices.
    - The closure variables of [trigger] ([processedMessages], [ws],
      [reconnectTimeout], [isClosed]) are the fields of [State]; the handlers
      registered on the socket are functions from a state to a state and the
      list of effects they perform ([new WebSocket], [setTimeout],
      [clearTimeout], [ws.close], [this.emit], the logger calls).
    - The JavaScript runtime is part of the state as far as the code relies
      on it: the table of timers that are set and have neither fired nor been
      cleared, and the number of socket objects created.  Handlers run to
      completion, one at a time; the environment chooses the next event.
    - [JSON.parse] is a library function: an inbound frame is given by its
      outcome, a parse failure or the parsed message.  Parsed messages range
      over the gateway's frame format with every field optional; a field
      that is present has the type the format gives it.  Numbers are
      integers.  A field that is absent reads as [undefined] ([None]).
      Frames that break the format otherwise (a timestamp that is a string,
      a [reaction] that is an object and not an array) are outside the
      model, and so are the URL and the credentials of lines 67-77. *)

From Stdlib Require Import ZArith List Bool String Lia PeanoNat Sorted.
Import ListNotations.
Local Open Scope Z_scope.
Local Open Scope string_scope.
Local Open Scope list_scope.

#[local] Set Warnings "-register-all".

(** ** JSON payloads that the trigger forwards without looking inside *)

Inductive json : Type :=
| JNull
| JBool (b : bool)
| JNum (n : Z)
| JStr (s : string)
| JArr (items : list json)
| JObj (props : list (string * json)).

(** ** The inbound frame *)

Record GroupInfo : Type := mkGroupInfo {
  groupId : option string;
  groupName : option string
}.

Record DataMessage : Type := mkDataMessage {
  message : option string;
  attachments : option (list json);
  reaction : option (list json);
  groupInfo : option GroupInfo
}.

Record Envelope : Type := mkEnvelope {
  timestamp : option Z;
  sourceDevice : option Z;
  sourceName : option string;
  sourceUuid : option string;
  hasContent : option bool;
  isUnidentifiedSender : option bool;
  syncMessage : option json;
  dataMessage : option DataMessage
}.

Record Message : Type := mkMessage {
  account : option string;
  envelope : option Envelope
}.

(** What the [try] block makes of a frame.  [Malformed]: [JSON.parse] throws
    (or returns [null], so that reading [message.envelope] throws) and control
    passes to the [catch] clause.  [Parsed m]: the frame parses to the message
    [m]; a parsed value without an [envelope] property, such as a number or a
    string, is a message with no field present. *)
Inductive Frame : Type :=
| Malformed
| Parsed (m : Message).

(** ** The event handed to the consumer ([processedMessage], lines 118-133) *)

Inductive MessageType : Type := incoming | outgoing.

Record NormalizedEvent : Type := mkEvent {
  ev_messageText : string;
  ev_attachments : list json;
  ev_reactions : list json;
  ev_sourceDevice : Z;
  ev_sourceName : string;
  ev_sourceUuid : string;
  ev_groupInternalId : string;
  ev_groupName : string;
  ev_timestamp : option Z;
  ev_account : string;
  ev_hasContent : bool;
  ev_isUnidentifiedSender : bool;
  ev_messageType : MessageType;
  ev_envelope : Envelope
}.

(** ** Node parameters read at the start of [trigger] *)

Record Config : Type := mkConfig {
  reconnectDelay : Z;           (* milliseconds: the parameter times 1000 *)
  ignoreMessages : bool;
  ignoreAttachments : bool;
  ignoreReactions : bool
}.

Definition maxMessages : nat := 1000.

(** ** JavaScript values and operators the handler uses *)

(** A dedup key is what [message.envelope.timestamp] evaluates to:
    [undefined] ([None]) or a number. *)
Definition key : Type := option Z.

(** The result of [Math.min]. *)
Inductive number : Type :=
| NaN
| Infinity
| Num (z : Z).

(** [ToNumber]: [undefined] becomes [NaN]. *)
Definition ToNumber (k : key) : number :=
  match k with
  | None => NaN
  | Some z => Num z
  end.

Definition min2 (a b : number) : number :=
  match a, b with
  | NaN, _ => NaN
  | _, NaN => NaN
  | Infinity, _ => b
  | _, Infinity => a
  | Num x, Num y => Num (Z.min x y)
  end.

(** [Math.min(...xs)]: [Infinity] without arguments, [NaN] as soon as one
    argument is not a number. *)
Fixpoint Math_min (xs : list key) : number :=
  match xs with
  | [] => Infinity
  | k :: r => min2 (ToNumber k) (Math_min r)
  end.

(** [a || b] on strings, numbers and booleans: the empty string, zero and
    [false] are falsy, and so is an absent field. *)
Definition or_string (a : option string) (b : string) : string :=
  match a with
  | Some s => if String.eqb s "" then b else s
  | None => b
  end.

Definition or_number (a : option Z) (b : Z) : Z :=
  match a with
  | Some n => if Z.eqb n 0 then b else n
  | None => b
  end.

Definition or_bool (a : option bool) (b : bool) : bool :=
  match a with
  | Some true => true
  | _ => b
  end.

(** An array is truthy, also when it is empty. *)
Definition or_array (a : option (list json)) (b : list json) : list json :=
  match a with
  | Some l => l
  | None => b
  end.

(** [x?.f]: [undefined] when [x] is. *)
Definition opt_get {A B : Type} (x : option A) (f : A -> option B) : option B :=
  match x with
  | Some a => f a
  | None => None
  end.

(** ** [Set<number>]: the elements in insertion order *)

Definition key_eqb (a b : key) : bool :=
  match a, b with
  | None, None => true
  | Some x, Some y => Z.eqb x y
  | _, _ => false
  end.

Definition Set_has (k : key) (s : list key) : bool := existsb (key_eqb k) s.

Definition Set_add (k : key) (s : list key) : list key :=
  if Set_has k s then s else s ++ [k].

Definition remove_key (k : key) (s : list key) : list key :=
  filter (fun x => negb (key_eqb x k)) s.

(** [delete] takes the result of [Math.min]: a set of JSON values holds
    neither [NaN] nor [Infinity], so deleting one of them removes nothing. *)
Definition Set_delete (n : number) (s : list key) : list key :=
  match n with
  | Num z => remove_key (Some z) s
  | NaN | Infinity => s
  end.

Definition Set_size (s : list key) : nat := List.length s.

(** Lines 111-115: insert the timestamp, then evict the smallest value when
    the set has grown past [maxMessages]. *)
Definition record (k : key) (s : list key) : list key :=
  let s1 := Set_add k s in
  if (maxMessages <? Set_size s1)%nat
  then Set_delete (Math_min s1) s1
  else s1.

(** ** Building the event and the two content filters *)

(** Truthiness of a JSON value. *)
Definition truthy (v : json) : bool :=
  match v with
  | JNull => false
  | JBool b => b
  | JNum n => negb (Z.eqb n 0)
  | JStr s => negb (String.eqb s "")
  | JArr _ => true
  | JObj _ => true
  end.

(** Line 117. *)
Definition messageTypeOf (e : Envelope) : MessageType :=
  match syncMessage e with
  | Some v => if truthy v then outgoing else incoming
  | None => incoming
  end.

(** Lines 118-133. *)
Definition processedMessage (m : Message) (e : Envelope) : NormalizedEvent :=
  {| ev_messageText := or_string (opt_get (dataMessage e) message) "";
     ev_attachments := or_array (opt_get (dataMessage e) attachments) [];
     ev_reactions := or_array (opt_get (dataMessage e) reaction) [];
     ev_sourceDevice := or_number (sourceDevice e) 0;
     ev_sourceName := or_string (sourceName e) "";
     ev_sourceUuid := or_string (sourceUuid e) "";
     ev_groupInternalId :=
       or_string (opt_get (opt_get (dataMessage e) groupInfo) groupId) "";
     ev_groupName :=
       or_string (opt_get (opt_get (dataMessage e) groupInfo) groupName) "";
     ev_timestamp := timestamp e;
     ev_account := or_string (account m) "";
     ev_hasContent := or_bool (hasContent e) false;
     ev_isUnidentifiedSender := or_bool (isUnidentifiedSender e) false;
     ev_messageType := messageTypeOf e;
     ev_envelope := e |}.

(** Lines 138-140: the condition of the empty-message filter. *)
Definition empty_message (pm : NormalizedEvent) : bool :=
  String.eqb (ev_messageText pm) ""
  && Nat.eqb (List.length (ev_attachments pm)) 0
  && Nat.eqb (List.length (ev_reactions pm)) 0.

(** Lines 146-148: the condition of the ignore filter. *)
Definition ignored (cfg : Config) (pm : NormalizedEvent) : bool :=
  (ignoreMessages cfg && negb (String.eqb (ev_messageText pm) ""))
  || (ignoreAttachments cfg && Nat.ltb 0 (List.length (ev_attachments pm)))
  || (ignoreReactions cfg && Nat.ltb 0 (List.length (ev_reactions pm))).

(** ** State and effects *)

Definition conn : Type := nat.    (* a socket object, by order of creation *)
Definition timer : Type := nat.   (* a timer handle, by order of creation *)

Inductive LogLine : Type :=
| LogAttempt
| LogSkipReconnect
| LogOpened
| LogDuplicate (k : key)
| LogProcessed (pm : NormalizedEvent)
| LogSkipEmpty (k : key)
| LogIgnored (k : key)
| LogEmitted (k : key)
| LogParseError
| LogSocketError
| LogSocketClosed (code : Z)
| LogStopped.

Inductive effect : Type :=
| ENewWebSocket (c : conn)
| ESetTimeout (t : timer) (delay : Z)
| EClearTimeout (t : timer)
| ECloseSocket (c : conn)
| EEmit (pm : NormalizedEvent)
| ELog (l : LogLine).

Record State : Type := mkState {
  (* the variables of [trigger] that the handlers close over *)
  processedMessages : list key;
  ws : option conn;
  reconnectTimeout : option timer;
  isClosed : bool;
  (* the runtime *)
  pending : list timer;   (* timers set, not yet fired, not cleared *)
  nconn : nat;            (* socket objects created so far *)
  ntimer : nat            (* timers created so far *)
}.

Definition set_processedMessages (w : list key) (s : State) : State :=
  mkState w (ws s) (reconnectTimeout s) (isClosed s)
          (pending s) (nconn s) (ntimer s).

Definition set_ws (c : option conn) (s : State) : State :=
  mkState (processedMessages s) c (reconnectTimeout s) (isClosed s)
          (pending s) (nconn s) (ntimer s).

Definition set_reconnectTimeout (t : option timer) (s : State) : State :=
  mkState (processedMessages s) (ws s) t (isClosed s)
          (pending s) (nconn s) (ntimer s).

Definition set_isClosed (b : bool) (s : State) : State :=
  mkState (processedMessages s) (ws s) (reconnectTimeout s) b
          (pending s) (nconn s) (ntimer s).

Definition set_pending (p : list timer) (s : State) : State :=
  mkState (processedMessages s) (ws s) (reconnectTimeout s) (isClosed s)
          p (nconn s) (ntimer s).

Definition set_nconn (n : nat) (s : State) : State :=
  mkState (processedMessages s) (ws s) (reconnectTimeout s) (isClosed s)
          (pending s) n (ntimer s).

Definition set_ntimer (n : nat) (s : State) : State :=
  mkState (processedMessages s) (ws s) (reconnectTimeout s) (isClosed s)
          (pending s) (nconn s) n.

(** Lines 78-83. *)
Definition initial : State :=
  {| processedMessages := [];
     ws := None;
     reconnectTimeout := None;
     isClosed := false;
     pending := [];
     nconn := 0;
     ntimer := 0 |}.

(** A handler: the next state and the effects performed, in order. *)
Definition handler : Type := State -> State * list effect.

Definition andThen (h1 h2 : handler) : handler :=
  fun s =>
    let (s1, o1) := h1 s in
    let (s2, o2) := h2 s1 in
    (s2, o1 ++ o2).

Infix ";;" := andThen (at level 61, right associativity).

(** ** The handlers *)

(** Lines 85-93: [new WebSocket] creates the next socket object and the
    four handlers below are registered on it. *)
Definition connectWebSocket : handler :=
  fun s =>
    if isClosed s then (s, [ELog LogSkipReconnect])
    else
      let c := nconn s in
      (set_ws (Some c) (set_nconn (S c) s), [ENewWebSocket c]).

(** Lines 95-97. *)
Definition on_open : handler :=
  fun s => (s, [ELog LogOpened]).

(** Lines 99-162. *)
Definition on_message (cfg : Config) (f : Frame) : handler :=
  fun s =>
    match f with
    | Malformed => (s, [ELog LogParseError])
    | Parsed m =>
        match envelope m with
        | None => (s, [])
        | Some e =>
            let ts := timestamp e in
            if Set_has ts (processedMessages s)
            then (s, [ELog (LogDuplicate ts)])
            else
              let s1 := set_processedMessages (record ts (processedMessages s)) s in
              let pm := processedMessage m e in
              if empty_message pm
              then (s1, [ELog (LogProcessed pm); ELog (LogSkipEmpty ts)])
              else if ignored cfg pm
              then (s1, [ELog (LogProcessed pm); ELog (LogIgnored ts)])
              else (s1, [ELog (LogProcessed pm); EEmit pm; ELog (LogEmitted ts)])
        end
    end.

(** [reconnectTimeout = setTimeout(connectWebSocket, reconnectDelay)]: the
    runtime creates a timer; the variable takes its handle, whatever handle
    it held before. *)
Definition scheduleReconnect (cfg : Config) : handler :=
  fun s =>
    let t := ntimer s in
    (set_reconnectTimeout (Some t)
       (set_pending (t :: pending s) (set_ntimer (S t) s)),
     [ESetTimeout t (reconnectDelay cfg)]).

(** Lines 164-169. *)
Definition on_error (cfg : Config) : handler :=
  fun s =>
    if isClosed s then (s, [ELog LogSocketError])
    else ((fun s => (s, [ELog LogSocketError])) ;; scheduleReconnect cfg) s.

(** Lines 171-176. *)
Definition on_close (cfg : Config) (code : Z) : handler :=
  fun s =>
    if isClosed s then (s, [ELog (LogSocketClosed code)])
    else ((fun s => (s, [ELog (LogSocketClosed code)])) ;; scheduleReconnect cfg) s.

(** A timer leaves the table when it fires and when it is cleared. *)
Definition remove_timer (t : timer) (p : list timer) : list timer :=
  filter (fun x => negb (Nat.eqb x t)) p.

(** The three statements of [closeFunction] (lines 183-191) and the
    function itself. *)
Definition stop_flag : handler :=
  fun s => (set_isClosed true s, []).

Definition stop_timer : handler :=
  fun s =>
    match reconnectTimeout s with
    | Some t =>
        (set_reconnectTimeout None (set_pending (remove_timer t (pending s)) s),
         [EClearTimeout t])
    | None => (s, [])
    end.

Definition stop_socket : handler :=
  fun s =>
    match ws s with
    | Some c => (set_ws None s, [ECloseSocket c])
    | None => (s, [])
    end.

Definition closeFunction : handler :=
  stop_flag ;; stop_timer ;; stop_socket ;; (fun s => (s, [ELog LogStopped])).

(** Lines 76-79 and 179: the start of the trigger. *)
Definition trigger : State * list effect :=
  ((fun s => (s, [ELog LogAttempt])) ;; connectWebSocket) initial.

(** ** The environment *)

Inductive Event : Type :=
| SocketOpen (c : conn)
| SocketMessage (c : conn) (f : Frame)
| SocketError (c : conn)
| SocketClose (c : conn) (code : Z)
| TimerFires (t : timer)
| StopCalled.

(** A socket event runs the handler registered on that socket object, if
    the object exists; a timer that is still pending runs its callback
    [connectWebSocket] once. *)
Definition step (cfg : Config) (ev : Event) : handler :=
  fun s =>
    match ev with
    | SocketOpen c => if (c <? nconn s)%nat then on_open s else (s, [])
    | SocketMessage c f => if (c <? nconn s)%nat then on_message cfg f s else (s, [])
    | SocketError c => if (c <? nconn s)%nat then on_error cfg s else (s, [])
    | SocketClose c code => if (c <? nconn s)%nat then on_close cfg code s else (s, [])
    | TimerFires t =>
        if existsb (Nat.eqb t) (pending s)
        then connectWebSocket (set_pending (remove_timer t (pending s)) s)
        else (s, [])
    | StopCalled => closeFunction s
    end.

Fixpoint run (cfg : Config) (evs : list Event) : handler :=
  match evs with
  | [] => fun s => (s, [])
  | ev :: rest => step cfg ev ;; run cfg rest
  end.

(** *** Observations on an effect list *)

Definition emitted (o : list effect) : list NormalizedEvent :=
  flat_map (fun x => match x with EEmit pm => [pm] | _ => [] end) o.

Definition connects (o : list effect) : list conn :=
  flat_map (fun x => match x with ENewWebSocket c => [c] | _ => [] end) o.

Definition timeouts (o : list effect) : list timer :=
  flat_map (fun x => match x with ESetTimeout t _ => [t] | _ => [] end) o.

(** The content filter on its own: what lines 117-151 decide for a message
    that has an envelope. *)
Inductive DropReason : Type := EmptyContent | Filtered.

Inductive Decision : Type :=
| DEmit (pm : NormalizedEvent)
| DDrop (r : DropReason).

Definition classify (cfg : Config) (m : Message) (e : Envelope) : Decision :=
  let pm := processedMessage m e in
  if empty_message pm then DDrop EmptyContent
  else if ignored cfg pm then DDrop Filtered
  else DEmit pm.

(** Recording a list of numeric timestamps, one after the other. *)
Definition record_all (ts : list Z) (w : list key) : list key :=
  fold_left (fun w t => record (Some t) w) ts w.

(** A check that the timestamps of a list are pairwise distinct. *)
Fixpoint distinctb (l : list Z) : bool :=
  match l with
  | [] => true
  | x :: r => negb (existsb (Z.eqb x) r) && distinctb r
  end.

(** 1001 timestamps, in increasing order. *)
Definition sample_timestamps : list Z :=
  map (fun i => 1700000000000 + Z.of_nat i) (seq 0 1001).

(** ** Sample frames *)

Definition default_config : Config :=
  {| reconnectDelay := 5000;
     ignoreMessages := false;
     ignoreAttachments := false;
     ignoreReactions := false |}.

Definition envelope_with (t : option Z) (d : option DataMessage) : Envelope :=
  {| timestamp := t; sourceDevice := None; sourceName := None;
     sourceUuid := None; hasContent := None; isUnidentifiedSender := None;
     syncMessage := None; dataMessage := d |}.

(** [{"envelope":{"timestamp":t,"dataMessage":{"message":txt}}}], without
    the timestamp when [t] is [None]. *)
Definition text_message (t : option Z) (txt : string) : Message :=
  {| account := None;
     envelope := Some (envelope_with t (Some (mkDataMessage (Some txt) None None None))) |}.

(** [{"envelope":{"timestamp":t}}]. *)
Definition bare_message (t : option Z) : Message :=
  {| account := None; envelope := Some (envelope_with t None) |}.

(** [{"envelope":{"timestamp":t,"dataMessage":{"attachments":[{}]}}}]. *)
Definition attachment_message (t : option Z) : Message :=
  {| account := None;
     envelope := Some (envelope_with t
                   (Some (mkDataMessage None (Some [JObj []]) None None))) |}.

(** Frames with the timestamps [from], [from+1], ... ([n] of them), each
    with a text, on the first socket. *)
Definition text_frames (from n : nat) : list Event :=
  map (fun i => SocketMessage 0%nat (Parsed (text_message (Some (Z.of_nat i)) "x")))
      (seq from n).

(** ** The socket URL and the node parameters (lines 67-77) *)

Fixpoint drop (n : nat) (s : string) : string :=
  match n, s with
  | O, _ => s
  | S n', String _ r => drop n' r
  | S _, EmptyString => EmptyString
  end.

(** [s.replace(pat, rep)] with a string as pattern: the first occurrence of
    [pat] in [s], if there is one, is replaced.  The replacement is taken as
    it is, which is what JavaScript does with a replacement that has no
    dollar sign in it. *)
Fixpoint String_replace (pat rep s : string) : string :=
  if String.prefix pat s
  then String.append rep (drop (String.length pat) s)
  else match s with
       | EmptyString => EmptyString
       | String c r => String c (String_replace pat rep r)
       end.

(** Line 76. *)
Definition wsUrl (apiUrl phoneNumber : string) : string :=
  String.append (String_replace "http" "ws" apiUrl)
                (String.append "/v1/receive/" phoneNumber).

(** Lines 71-74: the delay is given in seconds and kept in milliseconds. *)
Definition readParameters (seconds : Z) (im ia ir : bool) : Config :=
  {| reconnectDelay := seconds * 1000;
     ignoreMessages := im;
     ignoreAttachments := ia;
     ignoreReactions := ir |}.

(** ** Notions used in the statements below *)

(** [subseq l1 l2]: [l1] is [l2] with some elements left out. *)
Inductive subseq {A : Type} : list A -> list A -> Prop :=
| subseq_nil : subseq [] []
| subseq_skip (x : A) (l1 l2 : list A) : subseq l1 l2 -> subseq l1 (x :: l2)
| subseq_keep (x : A) (l1 l2 : list A) : subseq l1 l2 -> subseq (x :: l1) (x :: l2).

(** The events that the frames of a run could give, in the order of
    arrival: one for each frame that parses and has an envelope. *)
Definition candidates (evs : list Event) : list NormalizedEvent :=
  flat_map (fun ev =>
              match ev with
              | SocketMessage _ (Parsed m) =>
                  match envelope m with
                  | Some e => [processedMessage m e]
                  | None => []
                  end
              | _ => []
              end) evs.

Definition is_message (ev : Event) : bool :=
  match ev with
  | SocketMessage _ _ => true
  | _ => false
  end.

(** The last [n] elements of a list. *)
Definition lastn {A : Type} (n : nat) (l : list A) : list A :=
  skipn (List.length l - n) l.

(** [ws] holds the socket created last, as long as the trigger is not
    stopped, and nothing afterwards. *)
Definition ws_is_newest (s : State) : Prop :=
  (isClosed s = true /\ ws s = None) \/
  (isClosed s = false /\ ws s = Some (pred (nconn s)) /\ (0 < nconn s)%nat).

(** [n] failures in a row, each followed by its reconnect: the socket
    created last closes, and the timer set for it fires.  [c] is the socket
    that closes first and [t] the timer set first. *)
Fixpoint failures (c : conn) (t : timer) (n : nat) : list Event :=
  match n with
  | O => []
  | S n' => SocketClose c 1006 :: TimerFires t :: failures (S c) (S t) n'
  end.

(** * Properties *)

(** ** The set operations *)

Lemma key_eqb_eq (a b : key) : key_eqb a b = true <-> a = b.
Proof.
  destruct a as [x|], b as [y|]; simpl; split; intro H;
    try discriminate; try reflexivity.
  - apply Z.eqb_eq in H. now subst.
  - injection H as ->. apply Z.eqb_refl.
Qed.

Lemma key_eqb_refl (a : key) : key_eqb a a = true.
Proof. now apply key_eqb_eq. Qed.

Lemma key_eqb_neq (a b : key) : key_eqb a b = false <-> a <> b.
Proof.
  split.
  - intros H E. apply key_eqb_eq in E. congruence.
  - intro N. destruct (key_eqb a b) eqn:E; [|reflexivity].
    apply key_eqb_eq in E. contradiction.
Qed.

Lemma Set_has_In (k : key) (s : list key) : Set_has k s = true <-> In k s.
Proof.
  unfold Set_has. rewrite existsb_exists. split.
  - intros [x [Hx E]]. apply key_eqb_eq in E. now subst.
  - intro H. exists k. split; [assumption | apply key_eqb_refl].
Qed.

Lemma Set_has_not_In (k : key) (s : list key) : Set_has k s = false <-> ~ In k s.
Proof.
  rewrite <- Set_has_In. destruct (Set_has k s); split; congruence.
Qed.

Lemma In_Set_add (x k : key) (s : list key) :
  In x (Set_add k s) <-> In x s \/ x = k.
Proof.
  unfold Set_add. destruct (Set_has k s) eqn:H.
  - apply Set_has_In in H. split; [now left | intros [?| ->]; assumption].
  - rewrite in_app_iff. simpl. intuition congruence.
Qed.

Lemma NoDup_Set_add (k : key) (s : list key) : NoDup s -> NoDup (Set_add k s).
Proof.
  intro N. unfold Set_add. destruct (Set_has k s) eqn:H; [assumption|].
  apply Set_has_not_In in H.
  apply NoDup_app; [assumption | repeat constructor; intros [] | ].
  intros x Hx [<- | []]. contradiction.
Qed.

Lemma In_remove_key (x k : key) (s : list key) :
  In x (remove_key k s) <-> In x s /\ x <> k.
Proof.
  unfold remove_key. rewrite filter_In, negb_true_iff, key_eqb_neq. reflexivity.
Qed.

Lemma NoDup_remove_key (k : key) (s : list key) :
  NoDup s -> NoDup (remove_key k s).
Proof. apply NoDup_filter. Qed.

Lemma length_remove_key_le (k : key) (s : list key) :
  (List.length (remove_key k s) <= List.length s)%nat.
Proof. apply filter_length_le. Qed.

Lemma length_remove_key_In (k : key) (s : list key) :
  In k s -> (List.length (remove_key k s) < List.length s)%nat.
Proof.
  unfold remove_key. induction s as [|x r IH]; simpl; [intros []|].
  intros [-> | H].
  - rewrite key_eqb_refl. simpl.
    pose proof (filter_length_le (fun x => negb (key_eqb x k)) r). lia.
  - specialize (IH H). destruct (key_eqb x k); simpl; lia.
Qed.

Lemma remove_key_absent (k : key) (s : list key) :
  ~ In k s -> remove_key k s = s.
Proof.
  unfold remove_key. induction s as [|x r IH]; simpl; [reflexivity|].
  intro N. destruct (key_eqb x k) eqn:E.
  - apply key_eqb_eq in E. subst. exfalso. apply N. now left.
  - simpl. f_equal. apply IH. intro H. apply N. now right.
Qed.

Lemma length_remove_key_NoDup (k : key) (s : list key) :
  NoDup s -> In k s -> S (List.length (remove_key k s)) = List.length s.
Proof.
  induction 1 as [|x r Hx N IH]; simpl; [intros []|].
  unfold remove_key in *. simpl. intros [-> | H].
  - rewrite key_eqb_refl. simpl. fold (remove_key k r).
    now rewrite remove_key_absent.
  - destruct (key_eqb x k) eqn:E.
    + apply key_eqb_eq in E. subst. contradiction.
    + simpl. f_equal. now apply IH.
Qed.

(** ** [Math.min] over the window *)

Lemma Math_min_undefined (s : list key) : In None s -> Math_min s = NaN.
Proof.
  induction s as [|k r IH]; simpl; [intros []|].
  intros [-> | H]; [reflexivity|].
  rewrite (IH H). now destruct (ToNumber k).
Qed.

(** On a non-empty window [Math.min] is [NaN] when an entry is [undefined],
    and otherwise the least of the numbers held. *)
Lemma Math_min_cases (s : list key) :
  s <> [] ->
  (Math_min s = NaN /\ In None s) \/
  (exists m, Math_min s = Num m /\ In (Some m) s /\
             ~ In None s /\ forall z, In (Some z) s -> m <= z).
Proof.
  induction s as [|k r IH]; [congruence|]. intros _.
  destruct k as [a|]; [|left; split; [reflexivity | now left]].
  destruct r as [|k' r'].
  - right. exists a. simpl. repeat split; try tauto.
    + intros [H|[]]; discriminate.
    + intros z [H|[]]. injection H as ->. lia.
  - destruct IH as [[E H] | [m [E [Hm [Hn Hle]]]]]; [discriminate| |].
    + left. split; [|now right].
      change (min2 (Num a) (Math_min (k' :: r')) = NaN). now rewrite E.
    + right. exists (Z.min a m). split; [|split; [|split]].
      * change (min2 (Num a) (Math_min (k' :: r')) = Num (Z.min a m)).
        now rewrite E.
      * destruct (Z.min_spec a m) as [[_ ->] | [_ ->]]; [now left | now right].
      * intros [H|H]; [discriminate | contradiction].
      * intros z [H|H]; [injection H as ->; lia|].
        specialize (Hle z H). lia.
Qed.

Lemma Set_add_nonempty (k : key) (s : list key) : Set_add k s <> [].
Proof.
  intro E. assert (H : In k (Set_add k s)) by (apply In_Set_add; now right).
  rewrite E in H. destruct H.
Qed.

(** ** Recording a timestamp *)

Lemma record_small (k : key) (s : list key) :
  (Set_size (Set_add k s) <= maxMessages)%nat -> record k s = Set_add k s.
Proof.
  intro H. unfold record. cbv zeta.
  destruct (Nat.ltb_spec maxMessages (Set_size (Set_add k s))); [lia | reflexivity].
Qed.

Lemma record_large (k : key) (s : list key) :
  (maxMessages < Set_size (Set_add k s))%nat ->
  record k s = Set_delete (Math_min (Set_add k s)) (Set_add k s).
Proof.
  intro H. unfold record. cbv zeta.
  destruct (Nat.ltb_spec maxMessages (Set_size (Set_add k s))); [reflexivity | lia].
Qed.

(** With [undefined] in the set nothing is ever evicted. *)
Lemma record_with_undefined (k : key) (s : list key) :
  In None (Set_add k s) -> record k s = Set_add k s.
Proof.
  intro H. unfold record. cbv zeta.
  destruct (maxMessages <? Set_size (Set_add k s))%nat; [|reflexivity].
  now rewrite (Math_min_undefined _ H).
Qed.

Lemma record_keeps_undefined (k : key) (s : list key) :
  In None s -> In None (record k s).
Proof.
  intro H. assert (H' : In None (Set_add k s)) by (apply In_Set_add; now left).
  now rewrite record_with_undefined.
Qed.

Lemma NoDup_record (k : key) (s : list key) : NoDup s -> NoDup (record k s).
Proof.
  intro N. apply (NoDup_Set_add k) in N. unfold record. cbv zeta.
  destruct (maxMessages <? Set_size (Set_add k s))%nat; [|assumption].
  destruct (Math_min (Set_add k s)); simpl; try assumption.
  now apply NoDup_remove_key.
Qed.

Lemma length_Set_add (k : key) (s : list key) :
  (List.length (Set_add k s) <= S (List.length s))%nat.
Proof.
  unfold Set_add. destruct (Set_has k s); [lia|].
  rewrite length_app. simpl. lia.
Qed.

(** While every entry is a number, recording keeps the window within
    [maxMessages]. *)
Lemma record_numeric_bound (t : Z) (s : list key) :
  ~ In None s -> (Set_size s <= maxMessages)%nat ->
  ~ In None (record (Some t) s) /\ (Set_size (record (Some t) s) <= maxMessages)%nat.
Proof.
  intros Hn Hs.
  assert (Hn' : ~ In None (Set_add (Some t) s)).
  { rewrite In_Set_add. intros [H|H]; [contradiction | discriminate]. }
  pose proof (length_Set_add (Some t) s) as Hl.
  destruct (Nat.ltb_spec maxMessages (Set_size (Set_add (Some t) s))) as [L|L].
  - rewrite (record_large _ _ L).
    destruct (Math_min_cases _ (Set_add_nonempty (Some t) s))
      as [[_ H] | [m [E [Hm _]]]]; [contradiction|].
    rewrite E. simpl. split.
    + rewrite In_remove_key. tauto.
    + pose proof (length_remove_key_In _ _ Hm). unfold Set_size in *. lia.
  - rewrite (record_small _ _ L). split; assumption.
Qed.

(** ** Filling the window *)

Lemma distinctb_NoDup (l : list Z) : distinctb l = true -> NoDup l.
Proof.
  induction l as [|x r IH]; simpl; [constructor|].
  rewrite andb_true_iff, negb_true_iff. intros [Hx Hr].
  constructor; [|now apply IH].
  intro H. assert (E : existsb (Z.eqb x) r = true).
  { apply existsb_exists. exists x. split; [assumption | apply Z.eqb_refl]. }
  congruence.
Qed.

Lemma Some_inj_NoDup (l : list Z) : NoDup l -> NoDup (map (@Some Z) l).
Proof.
  induction 1 as [|x r Hx N IH]; simpl; constructor; [|assumption].
  rewrite in_map_iff. intros [y [E H]]. injection E as ->. contradiction.
Qed.

Lemma In_map_Some (t : Z) (l : list Z) : In (Some t) (map (@Some Z) l) <-> In t l.
Proof.
  rewrite in_map_iff. split.
  - intros [y [E H]]. injection E as ->. assumption.
  - intro H. now exists t.
Qed.

Lemma not_In_None_map_Some (l : list Z) : ~ In None (map (@Some Z) l).
Proof. rewrite in_map_iff. intros [y [E _]]. discriminate. Qed.

Lemma Set_add_fresh (t : Z) (l : list Z) :
  ~ In t l -> Set_add (Some t) (map Some l) = map Some (l ++ [t]).
Proof.
  intro H. unfold Set_add.
  rewrite <- In_map_Some in H. apply Set_has_not_In in H. rewrite H.
  now rewrite map_app.
Qed.

(** Up to [maxMessages] distinct timestamps are all kept, in the order of
    their arrival. *)
Lemma record_all_within (l l0 : list Z) :
  NoDup (l0 ++ l) -> (List.length (l0 ++ l) <= maxMessages)%nat ->
  record_all l (map Some l0) = map Some (l0 ++ l).
Proof.
  revert l0. induction l as [|a l IH]; intros l0 N L; simpl.
  - now rewrite app_nil_r.
  - assert (Ha : ~ In a l0).
    { intro H. apply NoDup_remove_2 in N. apply N. apply in_or_app. now left. }
    rewrite record_small; rewrite (Set_add_fresh _ _ Ha).
    + replace (l0 ++ a :: l) with ((l0 ++ [a]) ++ l) in *
        by (now rewrite <- app_assoc).
      now apply IH.
    + unfold Set_size. rewrite length_map.
      rewrite !length_app in *. simpl in *. lia.
Qed.

(** C5. After 1001 distinct timestamps have been recorded in an empty window,
    the window holds exactly 1000 entries: all of the 1001 but one, and the
    one evicted is the smallest of the 1001. *)
Theorem window_bound_after_1001 (l : list Z) :
  NoDup l -> List.length l = S maxMessages ->
  exists m,
    In m l /\ (forall t, In t l -> m <= t) /\
    Set_size (record_all l []) = maxMessages /\
    forall k, In k (record_all l []) <-> exists t, k = Some t /\ In t l /\ t <> m.
Proof.
  intros N L.
  destruct (exists_last (l := l)) as [l' [x E]]; [intro E; now rewrite E in L|].
  subst l. rewrite length_app in L. simpl in L.
  assert (Hx : ~ In x l').
  { intro H. apply NoDup_remove_2 in N. apply N. now rewrite app_nil_r. }
  assert (N' : NoDup l') by (apply NoDup_remove_1 in N; now rewrite app_nil_r in N).
  unfold record_all. rewrite fold_left_app. simpl.
  fold (record_all l' []).
  assert (W : record_all l' [] = map Some l')
    by (apply (record_all_within l' []); [assumption | simpl; lia]).
  rewrite W.
  assert (Hsz : (maxMessages < Set_size (Set_add (Some x) (map Some l')))%nat).
  { rewrite (Set_add_fresh _ _ Hx). unfold Set_size.
    rewrite length_map, length_app. simpl. lia. }
  rewrite (record_large _ _ Hsz). rewrite (Set_add_fresh _ _ Hx).
  destruct (Math_min_cases (map Some (l' ++ [x]))) as [[_ H] | [m [Em [Hm [_ Hle]]]]].
  - destruct l'; discriminate.
  - now apply not_In_None_map_Some in H.
  - exists m. rewrite Em. simpl. split; [now apply In_map_Some|].
    split; [intros t Ht; apply Hle; now apply In_map_Some|].
    split.
    + pose proof (length_remove_key_NoDup (Some m) _ (Some_inj_NoDup _ N) Hm) as HL.
      unfold Set_size. rewrite length_map, length_app in HL. simpl in HL. lia.
    + intro k. rewrite In_remove_key. split.
      * intros [Hk Hne]. destruct k as [t|]; [|now apply not_In_None_map_Some in Hk].
        exists t. split; [reflexivity|]. split; [now apply In_map_Some|].
        intro Ht. apply Hne. now subst.
      * intros [t [-> [Ht Hne]]]. split; [now apply In_map_Some|].
        intro H. injection H as ->. now apply Hne.
Qed.

Lemma window_bound_after_1001_witness :
  NoDup sample_timestamps /\ List.length sample_timestamps = S maxMessages /\
  exists m,
    In m sample_timestamps /\ (forall t, In t sample_timestamps -> m <= t) /\
    Set_size (record_all sample_timestamps []) = maxMessages /\
    forall k, In k (record_all sample_timestamps []) <->
              exists t, k = Some t /\ In t sample_timestamps /\ t <> m.
Proof.
  assert (N : NoDup sample_timestamps)
    by (apply distinctb_NoDup; vm_compute; reflexivity).
  assert (L : List.length sample_timestamps = S maxMessages)
    by (vm_compute; reflexivity).
  split; [exact N|]. split; [exact L|].
  exact (window_bound_after_1001 sample_timestamps N L).
Defined.

(** ** The message handler *)

Lemma on_message_duplicate (cfg : Config) (s : State) (m : Message) (e : Envelope) :
  envelope m = Some e ->
  Set_has (timestamp e) (processedMessages s) = true ->
  on_message cfg (Parsed m) s = (s, [ELog (LogDuplicate (timestamp e))]).
Proof. intros E H. unfold on_message. now rewrite E, H. Qed.

Lemma on_message_fresh (cfg : Config) (s : State) (m : Message) (e : Envelope) :
  envelope m = Some e ->
  Set_has (timestamp e) (processedMessages s) = false ->
  fst (on_message cfg (Parsed m) s)
    = set_processedMessages (record (timestamp e) (processedMessages s)) s /\
  emitted (snd (on_message cfg (Parsed m) s))
    = match classify cfg m e with
      | DEmit pm => [pm]
      | DDrop _ => []
      end.
Proof.
  intros E H. unfold on_message, classify. rewrite E, H.
  destruct (empty_message (processedMessage m e)); [now split|].
  destruct (ignored cfg (processedMessage m e)); now split.
Qed.

Lemma step_message (cfg : Config) (c : conn) (f : Frame) (s : State) :
  step cfg (SocketMessage c f) s = on_message cfg f s \/
  step cfg (SocketMessage c f) s = (s, []).
Proof. simpl. destruct (c <? nconn s)%nat; [now left | now right]. Qed.

(** What a frame can make the trigger emit: nothing, unless the filter lets
    it pass. *)
Lemma on_message_emitted (cfg : Config) (s : State) (m : Message) (e : Envelope) :
  envelope m = Some e ->
  emitted (snd (on_message cfg (Parsed m) s)) = [] \/
  exists pm, classify cfg m e = DEmit pm /\
             emitted (snd (on_message cfg (Parsed m) s)) = [pm].
Proof.
  intro E. destruct (Set_has (timestamp e) (processedMessages s)) eqn:H.
  - left. now rewrite (on_message_duplicate _ _ _ _ E H).
  - destruct (on_message_fresh cfg _ _ _ E H) as [_ ->].
    destruct (classify cfg m e) as [pm|r]; [right; now exists pm | now left].
Qed.

(** C1. The dedup window comes first.  A frame with an envelope whose
    timestamp the window holds is discarded before any filtering; for any
    other frame the timestamp is recorded, whatever the filter decides
    afterwards, and the event is emitted exactly when the filter lets it
    pass. *)
Theorem dedup_precedes_filter (cfg : Config) (s : State) (m : Message) (e : Envelope) :
  envelope m = Some e ->
  (Set_has (timestamp e) (processedMessages s) = true ->
   on_message cfg (Parsed m) s = (s, [ELog (LogDuplicate (timestamp e))])) /\
  (Set_has (timestamp e) (processedMessages s) = false ->
   fst (on_message cfg (Parsed m) s)
     = set_processedMessages (record (timestamp e) (processedMessages s)) s /\
   emitted (snd (on_message cfg (Parsed m) s))
     = match classify cfg m e with
       | DEmit pm => [pm]
       | DDrop _ => []
       end).
Proof.
  intro E. split; intro H.
  - now apply on_message_duplicate.
  - now apply on_message_fresh.
Qed.

Lemma dedup_precedes_filter_witness :
  envelope (bare_message (Some 1000)) = Some (envelope_with (Some 1000) None) /\
  Set_has (Some 1000) (processedMessages (fst trigger)) = false /\
  fst (on_message default_config (Parsed (bare_message (Some 1000))) (fst trigger))
    = set_processedMessages (record (Some 1000) []) (fst trigger) /\
  emitted (snd (on_message default_config (Parsed (bare_message (Some 1000)))
                           (fst trigger))) = [].
Proof.
  split; [reflexivity|]. split; [reflexivity|].
  exact (proj2 (dedup_precedes_filter default_config (fst trigger)
                  (bare_message (Some 1000)) (envelope_with (Some 1000) None)
                  eq_refl) eq_refl).
Defined.

(** The claim of C1 as the specification has it fails: the filter drops the
    frame [{"envelope":{"timestamp":1000}}] for its empty content, and yet
    handling it has put 1000 into the window. *)
Lemma dropped_frame_is_recorded :
  classify default_config (bare_message (Some 1000)) (envelope_with (Some 1000) None)
    = DDrop EmptyContent /\
  processedMessages (fst trigger) = [] /\
  processedMessages
    (fst (step default_config
               (SocketMessage 0%nat (Parsed (bare_message (Some 1000))))
               (fst trigger)))
    = [Some 1000].
Proof. repeat split. Qed.

(** C7. A frame whose event has no text, no attachments and no reactions is
    never emitted, whatever the three ignore settings are. *)
Theorem empty_content_dropped
  (cfg : Config) (s : State) (c : conn) (m : Message) (e : Envelope) :
  envelope m = Some e ->
  ev_messageText (processedMessage m e) = "" ->
  ev_attachments (processedMessage m e) = [] ->
  ev_reactions (processedMessage m e) = [] ->
  classify cfg m e = DDrop EmptyContent /\
  emitted (snd (step cfg (SocketMessage c (Parsed m)) s)) = [].
Proof.
  intros E Ht Ha Hr.
  assert (C : classify cfg m e = DDrop EmptyContent).
  { unfold classify, empty_message. now rewrite Ht, Ha, Hr. }
  split; [exact C|].
  destruct (step_message cfg c (Parsed m) s) as [-> | ->]; [|reflexivity].
  destruct (on_message_emitted cfg s m e E) as [H | [pm [H _]]];
    [assumption | congruence].
Qed.

Lemma empty_content_dropped_witness :
  classify (mkConfig 5000 false true true) (bare_message (Some 7))
           (envelope_with (Some 7) None) = DDrop EmptyContent /\
  emitted (snd (step (mkConfig 5000 false true true)
                     (SocketMessage 0%nat (Parsed (bare_message (Some 7))))
                     (fst trigger))) = [].
Proof.
  apply (empty_content_dropped (mkConfig 5000 false true true) (fst trigger) 0%nat
           (bare_message (Some 7)) (envelope_with (Some 7) None));
    reflexivity.
Defined.

(** C8. Each of the three ignore settings drops the event on its own: the
    event is not emitted when [ignoreMessages] is set and there is a text, or
    [ignoreAttachments] is set and there are attachments, or [ignoreReactions]
    is set and there are reactions. *)
Theorem ignore_filters_independent
  (cfg : Config) (s : State) (c : conn) (m : Message) (e : Envelope) :
  envelope m = Some e ->
  (ignoreMessages cfg = true /\ ev_messageText (processedMessage m e) <> "") \/
  (ignoreAttachments cfg = true /\ ev_attachments (processedMessage m e) <> []) \/
  (ignoreReactions cfg = true /\ ev_reactions (processedMessage m e) <> []) ->
  classify cfg m e = DDrop Filtered /\
  emitted (snd (step cfg (SocketMessage c (Parsed m)) s)) = [].
Proof.
  intros E H.
  assert (C : classify cfg m e = DDrop Filtered).
  { unfold classify, empty_message, ignored.
    destruct H as [[Hc Hn] | [[Hc Hn] | [Hc Hn]]]; rewrite Hc.
    - apply String.eqb_neq in Hn. rewrite Hn. reflexivity.
    - destruct (ev_attachments (processedMessage m e)); [congruence|].
      simpl. now rewrite andb_false_r, orb_true_r.
    - destruct (ev_reactions (processedMessage m e)); [congruence|].
      simpl. now rewrite andb_false_r, !orb_true_r. }
  split; [exact C|].
  destruct (step_message cfg c (Parsed m) s) as [-> | ->]; [|reflexivity].
  destruct (on_message_emitted cfg s m e E) as [H' | [pm [H' _]]];
    [assumption | congruence].
Qed.

(** With [ignoreAttachments] alone, a frame that has an attachment and
    neither text nor reaction is dropped. *)
Lemma ignore_filters_independent_witness :
  classify (mkConfig 5000 false true false) (attachment_message (Some 7))
           (envelope_with (Some 7)
              (Some (mkDataMessage None (Some [JObj []]) None None)))
    = DDrop Filtered /\
  emitted (snd (step (mkConfig 5000 false true false)
                     (SocketMessage 0%nat (Parsed (attachment_message (Some 7))))
                     (fst trigger))) = [].
Proof.
  apply (ignore_filters_independent (mkConfig 5000 false true false) (fst trigger)
           0%nat (attachment_message (Some 7))
           (envelope_with (Some 7)
              (Some (mkDataMessage None (Some [JObj []]) None None))));
    [reflexivity|].
  right. left. split; [reflexivity | discriminate].
Defined.

(** ** Runs *)

Lemma andThen_fst (h1 h2 : handler) (s : State) :
  fst ((h1 ;; h2) s) = fst (h2 (fst (h1 s))).
Proof.
  unfold andThen. destruct (h1 s) as [s1 o1]. simpl.
  now destruct (h2 s1).
Qed.

Lemma andThen_snd (h1 h2 : handler) (s : State) :
  snd ((h1 ;; h2) s) = snd (h1 s) ++ snd (h2 (fst (h1 s))).
Proof.
  unfold andThen. destruct (h1 s) as [s1 o1]. simpl.
  now destruct (h2 s1).
Qed.

Lemma run_cons (cfg : Config) (ev : Event) (evs : list Event) (s : State) :
  run cfg (ev :: evs) s = (step cfg ev ;; run cfg evs) s.
Proof. reflexivity. Qed.

Lemma run_app_fst (cfg : Config) (evs1 evs2 : list Event) (s : State) :
  fst (run cfg (evs1 ++ evs2) s) = fst (run cfg evs2 (fst (run cfg evs1 s))).
Proof.
  revert s. induction evs1 as [|ev r IH]; intro s; [reflexivity|].
  simpl app. rewrite !run_cons, !andThen_fst. apply IH.
Qed.

Lemma run_app_snd (cfg : Config) (evs1 evs2 : list Event) (s : State) :
  snd (run cfg (evs1 ++ evs2) s)
    = snd (run cfg evs1 s) ++ snd (run cfg evs2 (fst (run cfg evs1 s))).
Proof.
  revert s. induction evs1 as [|ev r IH]; intro s; [reflexivity|].
  simpl app. rewrite !run_cons, !andThen_snd, !andThen_fst, IH.
  now rewrite app_assoc.
Qed.

Lemma emitted_app (o1 o2 : list effect) :
  emitted (o1 ++ o2) = emitted o1 ++ emitted o2.
Proof. apply flat_map_app. Qed.

Lemma connects_app (o1 o2 : list effect) :
  connects (o1 ++ o2) = connects o1 ++ connects o2.
Proof. apply flat_map_app. Qed.

Lemma timeouts_app (o1 o2 : list effect) :
  timeouts (o1 ++ o2) = timeouts o1 ++ timeouts o2.
Proof. apply flat_map_app. Qed.

(** [closeFunction] in one piece. *)
Lemma closeFunction_eq (s : State) :
  closeFunction s =
    ({| processedMessages := processedMessages s;
        ws := None;
        reconnectTimeout := None;
        isClosed := true;
        pending := match reconnectTimeout s with
                   | Some t => remove_timer t (pending s)
                   | None => pending s
                   end;
        nconn := nconn s;
        ntimer := ntimer s |},
     match reconnectTimeout s with Some t => [EClearTimeout t] | None => [] end
     ++ match ws s with Some c => [ECloseSocket c] | None => [] end
     ++ [ELog LogStopped]).
Proof.
  destruct s as [w c t b p nc nt].
  unfold closeFunction, andThen, stop_flag, stop_timer, stop_socket. simpl.
  destruct t; destruct c; reflexivity.
Qed.

(** Only a message handler emits, and only the event it built from a frame
    that passed the filter. *)
Lemma step_emitted (cfg : Config) (ev : Event) (s : State) (pm : NormalizedEvent) :
  In pm (emitted (snd (step cfg ev s))) ->
  exists c m e, ev = SocketMessage c (Parsed m) /\ envelope m = Some e /\
                classify cfg m e = DEmit pm.
Proof.
  destruct ev as [c|c f|c|c code|t|]; simpl.
  - unfold on_open. destruct (c <? nconn s)%nat; simpl; intros [].
  - destruct (c <? nconn s)%nat; [|intros []].
    destruct f as [|m]; [intros []|].
    destruct (envelope m) as [e|] eqn:E; [|unfold on_message; rewrite E; intros []].
    destruct (on_message_emitted cfg s m e E) as [-> | [pm' [C ->]]]; [intros []|].
    intros [<- | []]. now exists c, m, e.
  - destruct (c <? nconn s)%nat; [|intros []].
    unfold on_error. destruct (isClosed s); simpl; intros [].
  - destruct (c <? nconn s)%nat; [|intros []].
    unfold on_close. destruct (isClosed s); simpl; intros [].
  - destruct (existsb (Nat.eqb t) (pending s)); [|intros []].
    unfold connectWebSocket. simpl. destruct (isClosed s); simpl; intros [].
  - rewrite closeFunction_eq. simpl.
    destruct (reconnectTimeout s); destruct (ws s); simpl; intros [].
Qed.

Lemma run_emitted (cfg : Config) (evs : list Event) (s : State) (pm : NormalizedEvent) :
  In pm (emitted (snd (run cfg evs s))) ->
  exists c m e, In (SocketMessage c (Parsed m)) evs /\ envelope m = Some e /\
                classify cfg m e = DEmit pm.
Proof.
  revert s. induction evs as [|ev r IH]; intro s; [intros []|].
  rewrite run_cons, andThen_snd, emitted_app, in_app_iff. intros [H|H].
  - destruct (step_emitted _ _ _ _ H) as [c [m [e [-> [E C]]]]].
    exists c, m, e. split; [now left | now split].
  - destruct (IH _ H) as [c [m [e [I [E C]]]]].
    exists c, m, e. split; [now right | now split].
Qed.

Lemma classify_DEmit (cfg : Config) (m : Message) (e : Envelope) (pm : NormalizedEvent) :
  classify cfg m e = DEmit pm ->
  pm = processedMessage m e /\ empty_message pm = false /\ ignored cfg pm = false.
Proof.
  unfold classify.
  destruct (empty_message (processedMessage m e)) eqn:He; [discriminate|].
  destruct (ignored cfg (processedMessage m e)) eqn:Hi; [discriminate|].
  intro H. injection H as <-. now repeat split.
Qed.

(** C9. A frame that does not parse changes nothing and is only logged: the
    state, and with it the socket, the timers and the window, stays as it
    was, and the only effect is the log line.  Over any run, whatever is
    handed to the consumer is the event built from a frame that parsed, had
    an envelope and passed the filter. *)
Theorem parse_failure_only_logged (cfg : Config) (s : State) (c : conn) :
  on_message cfg Malformed s = (s, [ELog LogParseError]) /\
  fst (step cfg (SocketMessage c Malformed) s) = s /\
  (forall x, In x (snd (step cfg (SocketMessage c Malformed) s)) ->
             x = ELog LogParseError) /\
  (forall evs pm, In pm (emitted (snd (run cfg evs s))) ->
     exists c' m e, In (SocketMessage c' (Parsed m)) evs /\ envelope m = Some e /\
                    pm = processedMessage m e /\
                    empty_message pm = false /\ ignored cfg pm = false).
Proof.
  split; [reflexivity|]. split; [|split].
  - simpl. now destruct (c <? nconn s)%nat.
  - simpl. destruct (c <? nconn s)%nat; simpl; [|intros x []].
    intros x [<- | []]. reflexivity.
  - intros evs pm H. destruct (run_emitted _ _ _ _ H) as [c' [m [e [I [E C]]]]].
    exists c', m, e. split; [assumption|]. split; [assumption|].
    now apply classify_DEmit.
Qed.

(** ** The window along a run *)

(** A step leaves the window as it is, or records the timestamp of a frame
    that the window did not hold. *)
Lemma step_window (cfg : Config) (ev : Event) (s : State) :
  processedMessages (fst (step cfg ev s)) = processedMessages s \/
  exists c m e,
    ev = SocketMessage c (Parsed m) /\ envelope m = Some e /\
    Set_has (timestamp e) (processedMessages s) = false /\
    processedMessages (fst (step cfg ev s))
      = record (timestamp e) (processedMessages s).
Proof.
  destruct ev as [c|c f|c|c code|t|]; simpl.
  - left. unfold on_open. now destruct (c <? nconn s)%nat.
  - destruct (c <? nconn s)%nat; [|now left].
    destruct f as [|m]; [now left|].
    destruct (envelope m) as [e|] eqn:E; [|left; unfold on_message; now rewrite E].
    destruct (Set_has (timestamp e) (processedMessages s)) eqn:H.
    + left. now rewrite (on_message_duplicate _ _ _ _ E H).
    + right. exists c, m, e. repeat split; try assumption.
      destruct (on_message_fresh cfg _ _ _ E H) as [-> _]. reflexivity.
  - left. destruct (c <? nconn s)%nat; [|reflexivity].
    unfold on_error. now destruct (isClosed s).
  - left. destruct (c <? nconn s)%nat; [|reflexivity].
    unfold on_close. now destruct (isClosed s).
  - left. destruct (existsb (Nat.eqb t) (pending s)); [|reflexivity].
    unfold connectWebSocket. simpl. now destruct (isClosed s).
  - left. now rewrite closeFunction_eq.
Qed.

Lemma run_keeps_undefined (cfg : Config) (evs : list Event) (s : State) :
  In None (processedMessages s) ->
  In None (processedMessages (fst (run cfg evs s))).
Proof.
  revert s. induction evs as [|ev r IH]; intros s H; [assumption|].
  rewrite run_cons, andThen_fst. apply IH.
  destruct (step_window cfg ev s) as [-> | [c [m [e [_ [_ [_ ->]]]]]]];
    [assumption | now apply record_keeps_undefined].
Qed.

(** C10. For a frame with an envelope and no timestamp the dedup key is
    [undefined], not zero: [undefined] is added to the window (and nothing is
    evicted), an event that is emitted carries the timestamp [undefined], and
    from then on, after any run, every frame with an envelope and no timestamp
    is discarded as a duplicate. *)
Theorem undefined_timestamp_is_a_key
  (cfg : Config) (s : State) (m : Message) (e : Envelope) :
  envelope m = Some e -> timestamp e = None ->
  processedMessages (fst (on_message cfg (Parsed m) s))
    = Set_add None (processedMessages s) /\
  In None (processedMessages (fst (on_message cfg (Parsed m) s))) /\
  (forall pm, In pm (emitted (snd (on_message cfg (Parsed m) s))) ->
              ev_timestamp pm = None) /\
  (forall evs m2 e2,
     envelope m2 = Some e2 -> timestamp e2 = None ->
     on_message cfg (Parsed m2)
                (fst (run cfg evs (fst (on_message cfg (Parsed m) s))))
       = (fst (run cfg evs (fst (on_message cfg (Parsed m) s))),
          [ELog (LogDuplicate None)])).
Proof.
  intros E T.
  assert (W : processedMessages (fst (on_message cfg (Parsed m) s))
              = Set_add None (processedMessages s)).
  { destruct (Set_has (timestamp e) (processedMessages s)) eqn:H.
    - rewrite (on_message_duplicate _ _ _ _ E H). simpl.
      rewrite T in H. unfold Set_add. now rewrite H.
    - destruct (on_message_fresh cfg _ _ _ E H) as [-> _]. simpl.
      rewrite T. apply record_with_undefined. apply In_Set_add. now right. }
  assert (I : In None (processedMessages (fst (on_message cfg (Parsed m) s)))).
  { rewrite W. apply In_Set_add. now right. }
  split; [exact W|]. split; [exact I|]. split.
  - intros pm H.
    destruct (on_message_emitted cfg s m e E) as [N | [pm' [C N]]];
      rewrite N in H; [destruct H|].
    destruct H as [<- | []]. apply classify_DEmit in C. destruct C as [-> _].
    exact T.
  - intros evs m2 e2 E2 T2.
    rewrite (on_message_duplicate _ _ _ _ E2); [now rewrite T2|].
    rewrite T2. apply Set_has_In. now apply run_keeps_undefined.
Qed.

Lemma undefined_timestamp_is_a_key_witness :
  processedMessages
    (fst (on_message default_config (Parsed (text_message None "hi")) (fst trigger)))
    = [None] /\
  emitted (snd (on_message default_config (Parsed (text_message None "hi"))
                           (fst trigger)))
    = [processedMessage (text_message None "hi")
                        (envelope_with None
                           (Some (mkDataMessage (Some "hi") None None None)))] /\
  on_message default_config (Parsed (text_message None "again"))
    (fst (run default_config (text_frames 1 3)
           (fst (on_message default_config (Parsed (text_message None "hi"))
                            (fst trigger)))))
  = (fst (run default_config (text_frames 1 3)
           (fst (on_message default_config (Parsed (text_message None "hi"))
                            (fst trigger)))),
     [ELog (LogDuplicate None)]).
Proof.
  pose proof (undefined_timestamp_is_a_key default_config (fst trigger)
                (text_message None "hi")
                (envelope_with None (Some (mkDataMessage (Some "hi") None None None)))
                eq_refl eq_refl) as [W [_ [_ D]]].
  split; [exact W|]. split; [reflexivity|].
  exact (D (text_frames 1 3) (text_message None "again")
           (envelope_with None (Some (mkDataMessage (Some "again") None None None)))
           eq_refl eq_refl).
Defined.

(** ** Two frames with one timestamp *)

(** A timestamp survives its own recording when the window is not full, or
    when it is not the smallest value held. *)
Lemma record_keeps_new (t : Z) (w : list key) :
  (Set_size w < maxMessages)%nat \/ Math_min (Set_add (Some t) w) <> Num t ->
  In (Some t) (record (Some t) w).
Proof.
  intro H.
  assert (I : In (Some t) (Set_add (Some t) w)) by (apply In_Set_add; now right).
  destruct (Nat.ltb_spec maxMessages (Set_size (Set_add (Some t) w))) as [L|L].
  - rewrite (record_large _ _ L). destruct H as [H|H].
    + pose proof (length_Set_add (Some t) w). unfold Set_size in *. lia.
    + destruct (Math_min (Set_add (Some t) w)) as [| |z]; simpl; try assumption.
      apply In_remove_key. split; [assumption|]. congruence.
  - now rewrite (record_small _ _ L).
Qed.

(** C4. Two frames with the same timestamp [t] yield exactly one event, that
    of the first frame, and the second is discarded as a duplicate, provided
    the first frame passes the filter, the window does not hold [t] yet, and
    [t] is not evicted by its own recording: the window is not full, or [t]
    is not the smallest value held. *)
Theorem duplicate_timestamp_emitted_once
  (cfg : Config) (s : State) (c1 c2 : conn) (m1 m2 : Message) (e1 e2 : Envelope)
  (t : Z) (pm : NormalizedEvent) :
  (c1 < nconn s)%nat -> (c2 < nconn s)%nat ->
  envelope m1 = Some e1 -> envelope m2 = Some e2 ->
  timestamp e1 = Some t -> timestamp e2 = Some t ->
  Set_has (Some t) (processedMessages s) = false ->
  (Set_size (processedMessages s) < maxMessages)%nat \/
    Math_min (Set_add (Some t) (processedMessages s)) <> Num t ->
  classify cfg m1 e1 = DEmit pm ->
  emitted (snd (run cfg [SocketMessage c1 (Parsed m1); SocketMessage c2 (Parsed m2)] s))
    = [pm] /\
  step cfg (SocketMessage c2 (Parsed m2)) (fst (step cfg (SocketMessage c1 (Parsed m1)) s))
    = (fst (step cfg (SocketMessage c1 (Parsed m1)) s), [ELog (LogDuplicate (Some t))]).
Proof.
  intros L1 L2 E1 E2 T1 T2 H K C.
  assert (S1 : step cfg (SocketMessage c1 (Parsed m1)) s = on_message cfg (Parsed m1) s).
  { simpl. apply Nat.ltb_lt in L1. now rewrite L1. }
  rewrite <- T1 in H.
  destruct (on_message_fresh cfg s m1 e1 E1 H) as [F O].
  rewrite C in O. rewrite T1 in F.
  assert (D : step cfg (SocketMessage c2 (Parsed m2)) (fst (on_message cfg (Parsed m1) s))
              = (fst (on_message cfg (Parsed m1) s), [ELog (LogDuplicate (Some t))])).
  { unfold step. rewrite F.
    assert (N : nconn (set_processedMessages (record (Some t) (processedMessages s)) s)
                = nconn s) by reflexivity.
    apply Nat.ltb_lt in L2. rewrite N, L2.
    rewrite <- T2. apply (on_message_duplicate _ _ _ _ E2).
    rewrite T2. apply Set_has_In. simpl. now apply record_keeps_new. }
  split.
  - rewrite run_cons, andThen_snd, run_cons, andThen_snd, S1, D, emitted_app, O.
    reflexivity.
  - rewrite S1. exact D.
Qed.

Lemma duplicate_timestamp_emitted_once_witness :
  emitted (snd (run default_config
                    [SocketMessage 0%nat (Parsed (text_message (Some 1000) "hi"));
                     SocketMessage 0%nat (Parsed (text_message (Some 1000) "hi"))]
                    (fst trigger)))
    = [processedMessage (text_message (Some 1000) "hi")
         (envelope_with (Some 1000) (Some (mkDataMessage (Some "hi") None None None)))] /\
  step default_config (SocketMessage 0%nat (Parsed (text_message (Some 1000) "hi")))
       (fst (step default_config
                  (SocketMessage 0%nat (Parsed (text_message (Some 1000) "hi")))
                  (fst trigger)))
    = (fst (step default_config
                 (SocketMessage 0%nat (Parsed (text_message (Some 1000) "hi")))
                 (fst trigger)),
       [ELog (LogDuplicate (Some 1000))]).
Proof.
  apply (duplicate_timestamp_emitted_once default_config (fst trigger) 0%nat 0%nat
           (text_message (Some 1000) "hi") (text_message (Some 1000) "hi")
           (envelope_with (Some 1000) (Some (mkDataMessage (Some "hi") None None None)))
           (envelope_with (Some 1000) (Some (mkDataMessage (Some "hi") None None None)))
           1000);
    try reflexivity; try (simpl; lia).
  left. vm_compute. lia.
Defined.

(** The claim of C4 as the specification has it fails both ways.  Two copies
    of a frame that the filter drops yield no event.  And once the window
    holds 1000 later timestamps, a frame with an earlier timestamp is evicted
    by its own recording, so that both copies are emitted. *)
Lemma duplicate_timestamp_not_emitted_once :
  emitted (snd (run default_config
                    [SocketMessage 0%nat (Parsed (bare_message (Some 5)));
                     SocketMessage 0%nat (Parsed (bare_message (Some 5)))]
                    (fst trigger))) = [] /\
  emitted (snd (run default_config
                    [SocketMessage 0%nat (Parsed (text_message (Some 5) "hi"));
                     SocketMessage 0%nat (Parsed (text_message (Some 5) "hi"))]
                    (fst (run default_config (text_frames 1001 1000) (fst trigger)))))
    = [processedMessage (text_message (Some 5) "hi")
         (envelope_with (Some 5) (Some (mkDataMessage (Some "hi") None None None)));
       processedMessage (text_message (Some 5) "hi")
         (envelope_with (Some 5) (Some (mkDataMessage (Some "hi") None None None)))].
Proof. split; vm_compute; reflexivity. Qed.

(** ** The bound on the window *)

(** X1. As long as every frame that is handled carries a number as its
    timestamp, the window holds no [undefined] and stays within
    [maxMessages], over any run. *)
Lemma window_bounded_numeric_run (cfg : Config) (evs : list Event) (s : State) :
  (forall c m e, In (SocketMessage c (Parsed m)) evs -> envelope m = Some e ->
                 timestamp e <> None) ->
  ~ In None (processedMessages s) ->
  (Set_size (processedMessages s) <= maxMessages)%nat ->
  ~ In None (processedMessages (fst (run cfg evs s))) /\
  (Set_size (processedMessages (fst (run cfg evs s))) <= maxMessages)%nat.
Proof.
  revert s. induction evs as [|ev r IH]; intros s F N B; [now split|].
  rewrite run_cons, andThen_fst.
  assert (F' : forall c m e, In (SocketMessage c (Parsed m)) r ->
                             envelope m = Some e -> timestamp e <> None).
  { intros c m e H. apply (F c). now right. }
  destruct (step_window cfg ev s) as [E | [c [m [e [-> [E [_ W]]]]]]].
  - apply IH; [assumption | now rewrite E | now rewrite E].
  - assert (T : timestamp e <> None) by (apply (F c m e); [now left | assumption]).
    destruct (timestamp e) as [t|]; [|congruence].
    destruct (record_numeric_bound t _ N B) as [N' B'].
    apply IH; [assumption | now rewrite W | now rewrite W].
Qed.

(** C6. The bound of 1000 entries is what lines 112-115 are there for, and
    the code misses it: after 1000 frames with the timestamps 1..1000 and one
    frame with an envelope and no timestamp the window holds 1001 entries
    ([Math.min] is [NaN], and nothing is deleted), and from then on every new
    timestamp makes it grow by one. *)
Theorem window_exceeds_bound_without_timestamp :
  Set_size (processedMessages
              (fst (run default_config
                        (text_frames 1 1000
                         ++ [SocketMessage 0%nat (Parsed (text_message None "x"))])
                        (fst trigger)))) = 1001%nat /\
  Set_size (processedMessages
              (fst (run default_config
                        (text_frames 1 1000
                         ++ [SocketMessage 0%nat (Parsed (text_message None "x"))]
                         ++ text_frames 2001 50)
                        (fst trigger)))) = 1051%nat.
Proof. split; vm_compute; reflexivity. Qed.

(** ** Reconnecting *)

(** A close on its own, before stop: one timer is set, with the configured
    delay, and when it fires one socket is created. *)
Lemma close_alone_reconnects_once (cfg : Config) (s : State) (c : conn) (code : Z) :
  isClosed s = false -> (c < nconn s)%nat ->
  snd (step cfg (SocketClose c code) s)
    = [ELog (LogSocketClosed code); ESetTimeout (ntimer s) (reconnectDelay cfg)] /\
  pending (fst (step cfg (SocketClose c code) s)) = ntimer s :: pending s /\
  snd (step cfg (TimerFires (ntimer s)) (fst (step cfg (SocketClose c code) s)))
    = [ENewWebSocket (nconn s)].
Proof.
  intros H L. apply Nat.ltb_lt in L.
  assert (S1 : step cfg (SocketClose c code) s
               = (set_reconnectTimeout (Some (ntimer s))
                    (set_pending (ntimer s :: pending s)
                       (set_ntimer (S (ntimer s)) s)),
                  [ELog (LogSocketClosed code);
                   ESetTimeout (ntimer s) (reconnectDelay cfg)])).
  { unfold step. rewrite L. unfold on_close. now rewrite H. }
  rewrite S1. split; [reflexivity|]. split; [reflexivity|].
  unfold step. simpl. rewrite Nat.eqb_refl. simpl.
  unfold connectWebSocket. simpl. now rewrite H.
Qed.

(** C3. One failed connection for which the socket reports an error and then
    a close (code 1006), before any stop: each of the two handlers sets a
    timer, so two timers are pending while the variable holds only the
    second; both fire, and two sockets are created.  A stop in between
    cancels the second timer only. *)
Theorem error_and_close_schedule_two_reconnects (cfg : Config) :
  timeouts (snd (run cfg [SocketError 0%nat; SocketClose 0%nat 1006] (fst trigger)))
    = [0%nat; 1%nat] /\
  pending (fst (run cfg [SocketError 0%nat; SocketClose 0%nat 1006] (fst trigger)))
    = [1%nat; 0%nat] /\
  reconnectTimeout
    (fst (run cfg [SocketError 0%nat; SocketClose 0%nat 1006] (fst trigger)))
    = Some 1%nat /\
  connects (snd (run cfg [TimerFires 0%nat; TimerFires 1%nat]
                     (fst (run cfg [SocketError 0%nat; SocketClose 0%nat 1006]
                               (fst trigger)))))
    = [1%nat; 2%nat] /\
  pending (fst (run cfg [SocketError 0%nat; SocketClose 0%nat 1006; StopCalled]
                    (fst trigger)))
    = [0%nat].
Proof. repeat split. Qed.

(** ** Stopping *)

Lemma on_message_shape (cfg : Config) (f : Frame) (s : State) :
  exists w, fst (on_message cfg f s) = set_processedMessages w s /\
            connects (snd (on_message cfg f s)) = [] /\
            timeouts (snd (on_message cfg f s)) = [].
Proof.
  assert (Same : s = set_processedMessages (processedMessages s) s) by now destruct s.
  destruct f as [|m]; [now exists (processedMessages s)|].
  unfold on_message. destruct (envelope m) as [e|]; [|now exists (processedMessages s)].
  destruct (Set_has (timestamp e) (processedMessages s));
    [now exists (processedMessages s)|].
  exists (record (timestamp e) (processedMessages s)).
  destruct (empty_message (processedMessage m e)); [now repeat split|].
  destruct (ignored cfg (processedMessage m e)); now repeat split.
Qed.

Lemma In_remove_timer (x t : timer) (p : list timer) :
  In x (remove_timer t p) <-> In x p /\ x <> t.
Proof.
  unfold remove_timer. rewrite filter_In, negb_true_iff, Nat.eqb_neq. reflexivity.
Qed.

(** Once the flag is set, no step creates a socket or sets a timer, and the
    flag stays set. *)
Lemma step_when_closed (cfg : Config) (ev : Event) (s : State) :
  isClosed s = true -> ws s = None -> reconnectTimeout s = None ->
  isClosed (fst (step cfg ev s)) = true /\
  ws (fst (step cfg ev s)) = None /\
  reconnectTimeout (fst (step cfg ev s)) = None /\
  nconn (fst (step cfg ev s)) = nconn s /\
  connects (snd (step cfg ev s)) = [] /\
  timeouts (snd (step cfg ev s)) = [] /\
  (forall t, In t (pending (fst (step cfg ev s))) -> In t (pending s)).
Proof.
  intros C W T.
  destruct ev as [c|c f|c|c code|t|]; unfold step.
  - unfold on_open. destruct (c <? nconn s)%nat; now repeat split.
  - destruct (c <? nconn s)%nat; [|now repeat split].
    destruct (on_message_shape cfg f s) as [w [-> [-> ->]]]. now repeat split.
  - unfold on_error. rewrite C. destruct (c <? nconn s)%nat; now repeat split.
  - unfold on_close. rewrite C. destruct (c <? nconn s)%nat; now repeat split.
  - destruct (existsb (Nat.eqb t) (pending s)); [|now repeat split].
    unfold connectWebSocket. simpl. rewrite C. simpl. repeat split; try assumption.
    intros x H. now apply In_remove_timer in H.
  - rewrite closeFunction_eq, T, W. now repeat split.
Qed.

Lemma run_when_closed (cfg : Config) (evs : list Event) (s : State) :
  isClosed s = true -> ws s = None -> reconnectTimeout s = None ->
  isClosed (fst (run cfg evs s)) = true /\
  ws (fst (run cfg evs s)) = None /\
  reconnectTimeout (fst (run cfg evs s)) = None /\
  nconn (fst (run cfg evs s)) = nconn s /\
  connects (snd (run cfg evs s)) = [] /\
  timeouts (snd (run cfg evs s)) = [] /\
  (forall t, In t (pending (fst (run cfg evs s))) -> In t (pending s)).
Proof.
  revert s. induction evs as [|ev r IH]; intros s C W T; [now repeat split|].
  destruct (step_when_closed cfg ev s C W T) as [C1 [W1 [T1 [N1 [K1 [O1 P1]]]]]].
  destruct (IH _ C1 W1 T1) as [C2 [W2 [T2 [N2 [K2 [O2 P2]]]]]].
  rewrite run_cons, andThen_fst, andThen_snd, connects_app, timeouts_app.
  rewrite K1, K2, O1, O2, N2, N1. repeat split; try assumption.
  intros t H. apply P1. now apply P2.
Qed.

(** C2. What [closeFunction] guarantees.  The flag is set first, without any
    effect, and the cancellation and the close run with the flag set.  The
    timer whose handle [reconnectTimeout] holds is cleared and is no longer
    pending; the socket that [ws] holds is closed; both variables are reset.
    After that, whatever events follow, the flag stays set, no socket is
    created and no timer is set; and when the only timer pending at the stop
    is the one [reconnectTimeout] holds, no timer is pending ever after. *)
Theorem stop_ends_reconnection (cfg : Config) (s : State) :
  closeFunction s
    = (stop_timer ;; stop_socket ;; (fun s' => (s', [ELog LogStopped])))
        (set_isClosed true s) /\
  stop_flag s = (set_isClosed true s, []) /\
  isClosed (fst (closeFunction s)) = true /\
  reconnectTimeout (fst (closeFunction s)) = None /\
  (forall t, reconnectTimeout s = Some t ->
             In (EClearTimeout t) (snd (closeFunction s)) /\
             ~ In t (pending (fst (closeFunction s)))) /\
  ws (fst (closeFunction s)) = None /\
  (forall c, ws s = Some c -> In (ECloseSocket c) (snd (closeFunction s))) /\
  (forall evs,
     isClosed (fst (run cfg evs (fst (closeFunction s)))) = true /\
     nconn (fst (run cfg evs (fst (closeFunction s)))) = nconn s /\
     connects (snd (run cfg evs (fst (closeFunction s)))) = [] /\
     timeouts (snd (run cfg evs (fst (closeFunction s)))) = []) /\
  ((forall t, In t (pending s) -> reconnectTimeout s = Some t) ->
   forall evs, pending (fst (run cfg evs (fst (closeFunction s)))) = []).
Proof.
  split.
  { unfold closeFunction. unfold andThen at 1. unfold stop_flag.
    now destruct ((stop_timer ;; stop_socket ;; (fun s' => (s', [ELog LogStopped])))
                    (set_isClosed true s)). }
  split; [reflexivity|].
  rewrite closeFunction_eq. simpl.
  split; [reflexivity|]. split; [reflexivity|].
  split; [|split; [reflexivity|split; [|split]]].
  - intros t ->. split; [now left|].
    rewrite In_remove_timer. tauto.
  - intros c ->. apply in_or_app. right. now left.
  - intro evs.
    pose proof (run_when_closed cfg evs
                  {| processedMessages := processedMessages s;
                     ws := None; reconnectTimeout := None; isClosed := true;
                     pending := match reconnectTimeout s with
                                | Some t => remove_timer t (pending s)
                                | None => pending s
                                end;
                     nconn := nconn s; ntimer := ntimer s |}
                  eq_refl eq_refl eq_refl) as [C [_ [_ [N [K [O _]]]]]].
    now repeat split.
  - intros Only evs.
    pose proof (run_when_closed cfg evs
                  {| processedMessages := processedMessages s;
                     ws := None; reconnectTimeout := None; isClosed := true;
                     pending := match reconnectTimeout s with
                                | Some t => remove_timer t (pending s)
                                | None => pending s
                                end;
                     nconn := nconn s; ntimer := ntimer s |}
                  eq_refl eq_refl eq_refl) as [_ [_ [_ [_ [_ [_ P]]]]]].
    simpl in P.
    destruct (pending (fst (run cfg evs _))) as [|x r]; [reflexivity|].
    exfalso. specialize (P x (or_introl eq_refl)).
    destruct (reconnectTimeout s) as [t0|] eqn:R.
    + apply In_remove_timer in P. destruct P as [I D].
      specialize (Only x I). congruence.
    + specialize (Only x P). discriminate.
Qed.

(** The claim of C2 as the specification has it fails: a frame that the
    first socket delivers after [closeFunction] has returned is handled as
    any other, and its event is emitted. *)
Lemma emission_after_stop :
  isClosed (fst (closeFunction (fst trigger))) = true /\
  emitted (snd (run default_config
                    [SocketMessage 0%nat (Parsed (text_message (Some 1000) "hi"))]
                    (fst (closeFunction (fst trigger)))))
    = [processedMessage (text_message (Some 1000) "hi")
         (envelope_with (Some 1000) (Some (mkDataMessage (Some "hi") None None None)))].
Proof. split; reflexivity. Qed.

(** ** The window as the handler fills it *)

Lemma In_record (k k0 : key) (w : list key) :
  In k (record k0 w) -> In k w \/ k = k0.
Proof.
  unfold record. cbv zeta.
  destruct (maxMessages <? Set_size (Set_add k0 w))%nat.
  - destruct (Math_min (Set_add k0 w)); simpl; try apply In_Set_add.
    intro H. apply In_remove_key in H. now apply In_Set_add.
  - apply In_Set_add.
Qed.

(** X17. Frames with pairwise distinct timestamps that the window does not
    hold are recorded one after the other, whether the filter lets them pass
    or not: the handler leaves the window that [record_all] computes. *)
Lemma run_records_all (cfg : Config) (c : conn) (ms : list Message) (ts : list Z) :
  Forall2 (fun m t => exists e, envelope m = Some e /\ timestamp e = Some t) ms ts ->
  forall s,
    NoDup ts -> (forall t, In t ts -> ~ In (Some t) (processedMessages s)) ->
    (c < nconn s)%nat ->
    processedMessages
      (fst (run cfg (map (fun m => SocketMessage c (Parsed m)) ms) s))
    = record_all ts (processedMessages s).
Proof.
  induction 1 as [|m t ms ts [e [E T]] F IH]; intros s N A L; [reflexivity|].
  simpl map. rewrite run_cons, andThen_fst.
  assert (S1 : fst (step cfg (SocketMessage c (Parsed m)) s)
               = set_processedMessages (record (Some t) (processedMessages s)) s).
  { unfold step. pose proof L as L'. apply Nat.ltb_lt in L'. rewrite L'.
    rewrite <- T. apply on_message_fresh; [assumption|].
    rewrite T. apply Set_has_not_In. apply A. now left. }
  rewrite S1. inversion N as [|? ? Ht N']; subst.
  rewrite IH; [reflexivity | assumption | | assumption].
  intros t' I H. simpl in H. apply In_record in H. destruct H as [H|H].
  - apply (A t'); [now right | assumption].
  - injection H as ->. contradiction.
Qed.

(** ** The scenario of the specification *)

(** The frame [{"envelope":{"timestamp":1000,"dataMessage":{"message":"hi"}}}]
    under the default configuration: one event, incoming, with the text and
    the timestamp of the frame. *)
Example scenario_hi :
  exists pm,
    emitted (snd (step default_config
                       (SocketMessage 0%nat (Parsed (text_message (Some 1000) "hi")))
                       (fst trigger))) = [pm] /\
    ev_messageText pm = "hi" /\ ev_messageType pm = incoming /\
    ev_timestamp pm = Some 1000.
Proof. eexists. repeat split. Qed.

(** * Further properties of the code *)

(** ** The window when it is full *)

Lemma window_bounded_numeric_run_witness :
  ~ In None (processedMessages
               (fst (run default_config (text_frames 1 1200) (fst trigger)))) /\
  (Set_size (processedMessages
               (fst (run default_config (text_frames 1 1200) (fst trigger))))
   <= maxMessages)%nat.
Proof.
  apply window_bounded_numeric_run.
  - intros c m e H E. unfold text_frames in H. apply in_map_iff in H.
    destruct H as [i [H _]]. injection H as _ <-. simpl in E.
    injection E as <-. discriminate.
  - simpl. tauto.
  - simpl. lia.
Defined.

Lemma Math_min_lower (w : list key) (m : Z) :
  Math_min w = Num m -> forall z, In (Some z) w -> m <= z.
Proof.
  intros E z I. destruct w as [|k r]; [destruct I|].
  destruct (Math_min_cases (k :: r)) as [[N _] | [m' [E' [_ [_ L]]]]];
    [discriminate | congruence | ].
  rewrite E in E'. injection E' as <-. now apply L.
Qed.

(** X2. Recording a new number in a window that holds [maxMessages] distinct
    numbers leaves exactly [maxMessages] entries: the old ones and the new
    one, less the smallest of them all, which may be the new one. *)
Theorem record_on_full_window (w : list key) (t : Z) :
  NoDup w -> ~ In None w -> Set_size w = maxMessages -> ~ In (Some t) w ->
  exists m,
    (In (Some m) w \/ m = t) /\
    (forall z, In (Some z) w \/ z = t -> m <= z) /\
    Set_size (record (Some t) w) = maxMessages /\
    forall k, In k (record (Some t) w) <-> (In k w \/ k = Some t) /\ k <> Some m.
Proof.
  intros N U Sz F.
  assert (A : Set_add (Some t) w = w ++ [Some t]).
  { unfold Set_add. apply Set_has_not_In in F. now rewrite F. }
  assert (L : (maxMessages < Set_size (Set_add (Some t) w))%nat).
  { rewrite A. unfold Set_size in *. rewrite length_app. simpl. lia. }
  rewrite (record_large _ _ L).
  destruct (Math_min_cases _ (Set_add_nonempty (Some t) w))
    as [[_ H] | [m [E [Hm [_ Hle]]]]].
  - apply In_Set_add in H. destruct H as [H|H]; [contradiction | discriminate].
  - exists m. rewrite E. simpl. split; [|split; [|split]].
    + apply In_Set_add in Hm. destruct Hm as [H|H]; [now left|].
      right. now injection H.
    + intros z H. apply Hle. apply In_Set_add.
      destruct H as [H | ->]; [now left | now right].
    + pose proof (length_remove_key_NoDup (Some m) _ (NoDup_Set_add (Some t) w N) Hm)
        as HL.
      rewrite A in HL. rewrite A. unfold Set_size in *.
      rewrite length_app in HL. simpl in HL. lia.
    + intro k. rewrite In_remove_key, In_Set_add. reflexivity.
Qed.

Lemma record_on_full_window_witness :
  exists m,
    (In (Some m) (map Some (map Z.of_nat (seq 1 1000))) \/ m = 0) /\
    (forall z, In (Some z) (map Some (map Z.of_nat (seq 1 1000))) \/ z = 0 -> m <= z) /\
    Set_size (record (Some 0) (map Some (map Z.of_nat (seq 1 1000)))) = maxMessages /\
    forall k, In k (record (Some 0) (map Some (map Z.of_nat (seq 1 1000)))) <->
              (In k (map Some (map Z.of_nat (seq 1 1000))) \/ k = Some 0) /\
              k <> Some m.
Proof.
  apply record_on_full_window.
  - apply Some_inj_NoDup. apply distinctb_NoDup. vm_compute. reflexivity.
  - apply not_In_None_map_Some.
  - vm_compute. reflexivity.
  - rewrite In_map_Some. rewrite in_map_iff. intros [i [E H]].
    apply in_seq in H. lia.
Defined.

(** ** Timestamps that arrive in increasing order *)

Lemma sorted_app_last (l : list Z) (t : Z) :
  StronglySorted Z.lt (l ++ [t]) ->
  StronglySorted Z.lt l /\ Forall (fun x => x < t) l.
Proof.
  induction l as [|a l IH]; simpl; intro H; [split; constructor|].
  apply StronglySorted_inv in H. destruct H as [H F].
  destruct (IH H) as [S1 F1]. split.
  - constructor; [assumption|].
    apply Forall_app in F. tauto.
  - constructor; [|assumption].
    apply Forall_app in F. destruct F as [_ F]. now inversion F.
Qed.

Lemma sorted_skipn (n : nat) (l : list Z) :
  StronglySorted Z.lt l -> StronglySorted Z.lt (skipn n l).
Proof.
  revert l. induction n as [|n IH]; intros l H; [assumption|].
  destruct l as [|a l]; [assumption|]. simpl.
  apply IH. now apply StronglySorted_inv in H.
Qed.

Lemma tl_skipn {A : Type} (n : nat) (l : list A) : tl (skipn n l) = skipn (S n) l.
Proof.
  revert l. induction n as [|n IH]; intro l; [now destruct l|].
  destruct l as [|a l]; [reflexivity|]. simpl. rewrite IH.
  now destruct l.
Qed.

(** When the window is full and the new timestamp is the largest, the entry
    that goes is the first one that came. *)
Lemma record_increasing_full (l : list Z) (t : Z) :
  StronglySorted Z.lt (l ++ [t]) -> List.length l = maxMessages ->
  record (Some t) (map Some l) = map Some (tl l ++ [t]).
Proof.
  intros S L. destruct (sorted_app_last _ _ S) as [_ B].
  assert (F : ~ In t l).
  { intro H. rewrite Forall_forall in B. specialize (B t H). lia. }
  destruct l as [|a r]; [discriminate|].
  assert (Sz : (maxMessages < Set_size (Set_add (Some t) (map Some (a :: r))))%nat).
  { rewrite (Set_add_fresh _ _ F). unfold Set_size.
    rewrite length_map, length_app. simpl in *. lia. }
  rewrite (record_large _ _ Sz), (Set_add_fresh _ _ F).
  simpl app in S. apply StronglySorted_inv in S. destruct S as [S A].
  assert (M : Math_min (map Some ((a :: r) ++ [t])) = Num a).
  { destruct (Math_min_cases (map Some ((a :: r) ++ [t])))
      as [[_ H] | [m [E [Hm [_ Hle]]]]]; [discriminate | | ].
    - now apply not_In_None_map_Some in H.
    - rewrite E. f_equal.
      assert (m <= a) by (apply Hle; now left).
      apply In_map_Some in Hm. destruct Hm as [-> | Hm]; [reflexivity|].
      rewrite Forall_forall in A. specialize (A m Hm). lia. }
  rewrite M. simpl. unfold remove_key. simpl. rewrite Z.eqb_refl. simpl.
  apply remove_key_absent. rewrite In_map_Some. intro H.
  rewrite Forall_forall in A. specialize (A a H). lia.
Qed.

(** X3. When the timestamps arrive in strictly increasing order, evicting the
    smallest is evicting the oldest: after any number of them the window
    holds the most recent [maxMessages], in the order of their arrival. *)
Theorem increasing_timestamps_keep_latest (l : list Z) :
  StronglySorted Z.lt l ->
  record_all l [] = map Some (lastn maxMessages l).
Proof.
  induction l as [|t l IH] using rev_ind; intro Hs; [reflexivity|].
  destruct (sorted_app_last _ _ Hs) as [S' B].
  unfold record_all. rewrite fold_left_app. simpl. fold (record_all l []).
  rewrite (IH S'). unfold lastn. rewrite length_app. simpl.
  destruct (Nat.lt_ge_cases (List.length l) maxMessages) as [Lt|Ge].
  - replace (List.length l - maxMessages)%nat with 0%nat by lia.
    replace (List.length l + 1 - maxMessages)%nat with 0%nat by lia.
    simpl skipn.
    assert (F : ~ In t l).
    { intro H. rewrite Forall_forall in B. specialize (B t H). lia. }
    rewrite record_small; rewrite (Set_add_fresh _ _ F); [reflexivity|].
    unfold Set_size. rewrite length_map, length_app. simpl. lia.
  - assert (P : (0 < maxMessages)%nat) by (unfold maxMessages; lia).
    assert (E : skipn (List.length l - maxMessages) (l ++ [t])
                = skipn (List.length l - maxMessages) l ++ [t]).
    { rewrite skipn_app.
      replace (List.length l - maxMessages - List.length l)%nat with 0%nat by lia.
      reflexivity. }
    rewrite record_increasing_full.
    + rewrite tl_skipn.
      replace (List.length l + 1 - maxMessages)%nat
        with (S (List.length l - maxMessages))%nat by lia.
      rewrite skipn_app.
      replace (S (List.length l - maxMessages) - List.length l)%nat with 0%nat by lia.
      reflexivity.
    + rewrite <- E. now apply sorted_skipn.
    + rewrite length_skipn. lia.
Qed.

Lemma increasing_timestamps_keep_latest_witness :
  record_all (map Z.of_nat (seq 1 1003)) []
    = map Some (lastn maxMessages (map Z.of_nat (seq 1 1003))) /\
  lastn maxMessages (map Z.of_nat (seq 1 1003)) = map Z.of_nat (seq 4 1000).
Proof.
  split; [|vm_compute; reflexivity].
  apply increasing_timestamps_keep_latest.
  assert (G : forall n a, StronglySorted Z.lt (map Z.of_nat (seq a n))).
  { induction n as [|n IH]; intro a; simpl; constructor; [apply IH|].
    apply Forall_forall. intros x H. apply in_map_iff in H.
    destruct H as [i [<- H]]. apply in_seq in H. lia. }
  apply G.
Defined.

(** ** What a run emits *)

(** A step emits nothing, or it handles a frame with an envelope whose
    timestamp the window did not hold, records that timestamp and emits the
    one event built from the frame. *)
Lemma step_emitted_cases (cfg : Config) (ev : Event) (s : State) :
  emitted (snd (step cfg ev s)) = [] \/
  exists c m e,
    ev = SocketMessage c (Parsed m) /\ envelope m = Some e /\
    classify cfg m e = DEmit (processedMessage m e) /\
    emitted (snd (step cfg ev s)) = [processedMessage m e] /\
    Set_has (timestamp e) (processedMessages s) = false /\
    processedMessages (fst (step cfg ev s))
      = record (timestamp e) (processedMessages s).
Proof.
  destruct (emitted (snd (step cfg ev s))) as [|pm r] eqn:Em; [now left|].
  right.
  assert (I : In pm (emitted (snd (step cfg ev s)))) by (rewrite Em; now left).
  destruct (step_emitted _ _ _ _ I) as [c [m [e [-> [E C]]]]].
  destruct (classify_DEmit _ _ _ _ C) as [-> _].
  exists c, m, e. split; [reflexivity|]. split; [assumption|]. split; [assumption|].
  destruct (step_message cfg c (Parsed m) s) as [St | St];
    rewrite St in Em; [|discriminate].
  rewrite St.
  destruct (Set_has (timestamp e) (processedMessages s)) eqn:H.
  - rewrite (on_message_duplicate _ _ _ _ E H) in Em. discriminate.
  - destruct (on_message_fresh cfg _ _ _ E H) as [F O].
    rewrite C in O. rewrite <- Em, O, F. now repeat split.
Qed.

Lemma subseq_app {A : Type} (a b c d : list A) :
  subseq a b -> subseq c d -> subseq (a ++ c) (b ++ d).
Proof.
  intros H K. induction H; simpl; [assumption | |]; now constructor.
Qed.

Lemma subseq_refl {A : Type} (l : list A) : subseq l l.
Proof. induction l; now constructor. Qed.

Lemma subseq_nil_l {A : Type} (l : list A) : subseq [] l.
Proof. induction l; now constructor. Qed.

(** X4. The events of a run are emitted in the order in which their frames
    arrived, at most one for each frame: the list of emitted events is the
    list of the events that the frames with an envelope give, with some left
    out. *)
Theorem emissions_in_arrival_order (cfg : Config) (evs : list Event) (s : State) :
  subseq (emitted (snd (run cfg evs s))) (candidates evs).
Proof.
  revert s. induction evs as [|ev r IH]; intro s; [constructor|].
  rewrite run_cons, andThen_snd, emitted_app.
  unfold candidates. simpl flat_map.
  apply subseq_app; [|apply IH].
  destruct (step_emitted_cases cfg ev s) as [-> | [c [m [e [-> [E [_ [-> _]]]]]]]].
  - apply subseq_nil_l.
  - rewrite E. apply subseq_refl.
Qed.

(** X5. While the window has room for every event still to come, no two
    emitted events carry the same timestamp, and none carries a timestamp
    that the window held at the beginning. *)
Theorem no_duplicate_emission_with_room (cfg : Config) (evs : list Event) (s : State) :
  (Set_size (processedMessages s) + List.length evs <= maxMessages)%nat ->
  NoDup (map ev_timestamp (emitted (snd (run cfg evs s)))) /\
  forall pm, In pm (emitted (snd (run cfg evs s))) ->
             ~ In (ev_timestamp pm) (processedMessages s).
Proof.
  revert s. induction evs as [|ev r IH]; intros s B; [split; [constructor | intros pm []]|].
  simpl List.length in B.
  rewrite run_cons, andThen_snd, emitted_app, map_app.
  destruct (step_emitted_cases cfg ev s)
    as [Em | [c [m [e [-> [E [_ [Em [H W]]]]]]]]].
  - rewrite Em. simpl.
    destruct (step_window cfg ev s) as [W | [c [m [e [_ [_ [H W]]]]]]].
    + destruct (IH (fst (step cfg ev s))) as [N D]; [rewrite W; lia|].
      rewrite W in D. now split.
    + assert (R : record (timestamp e) (processedMessages s)
                  = Set_add (timestamp e) (processedMessages s)).
      { apply record_small.
        pose proof (length_Set_add (timestamp e) (processedMessages s)).
        unfold Set_size in *. lia. }
      destruct (IH (fst (step cfg ev s))) as [N D].
      { rewrite W, R.
        pose proof (length_Set_add (timestamp e) (processedMessages s)).
        unfold Set_size in *. lia. }
      split; [assumption|]. intros pm I K. apply (D pm I).
      rewrite W, R. apply In_Set_add. now left.
  - assert (R : record (timestamp e) (processedMessages s)
                = Set_add (timestamp e) (processedMessages s)).
    { apply record_small.
      pose proof (length_Set_add (timestamp e) (processedMessages s)).
      unfold Set_size in *. lia. }
    destruct (IH (fst (step cfg (SocketMessage c (Parsed m)) s))) as [N D].
    { rewrite W, R.
      pose proof (length_Set_add (timestamp e) (processedMessages s)).
      unfold Set_size in *. lia. }
    rewrite Em. simpl. split.
    + constructor; [|assumption].
      rewrite in_map_iff. intros [pm [T I]]. apply (D pm I).
      rewrite W, R, T. apply In_Set_add. now right.
    + intros pm [<- | I].
      * simpl. now apply Set_has_not_In.
      * intro K. apply (D pm I). rewrite W, R. apply In_Set_add. now left.
Qed.

Lemma no_duplicate_emission_with_room_witness :
  NoDup (map ev_timestamp
           (emitted (snd (run default_config
                              (text_frames 1 3 ++ text_frames 2 3) (fst trigger))))) /\
  map ev_timestamp
    (emitted (snd (run default_config
                       (text_frames 1 3 ++ text_frames 2 3) (fst trigger))))
    = [Some 1; Some 2; Some 3; Some 4].
Proof.
  split; [|reflexivity].
  apply (no_duplicate_emission_with_room default_config
           (text_frames 1 3 ++ text_frames 2 3) (fst trigger)).
  vm_compute. lia.
Defined.

(** ** The window and the other events *)

Lemma run_app (cfg : Config) (evs1 evs2 : list Event) (s : State) :
  run cfg (evs1 ++ evs2) s = (run cfg evs1 ;; run cfg evs2) s.
Proof.
  apply injective_projections.
  - now rewrite run_app_fst, andThen_fst.
  - now rewrite run_app_snd, andThen_snd.
Qed.

(** X6. Only frames change the window.  Over a run without frames (opens,
    errors, closes, timers, reconnects, even a stop) the window stays as it
    is, so that a frame whose timestamp was recorded before is still
    discarded as a duplicate afterwards, on whichever socket it arrives. *)
Theorem window_survives_reconnects
  (cfg : Config) (evs : list Event) (s : State) (m : Message) (e : Envelope) :
  forallb (fun ev => negb (is_message ev)) evs = true ->
  envelope m = Some e ->
  Set_has (timestamp e) (processedMessages s) = true ->
  processedMessages (fst (run cfg evs s)) = processedMessages s /\
  on_message cfg (Parsed m) (fst (run cfg evs s))
    = (fst (run cfg evs s), [ELog (LogDuplicate (timestamp e))]).
Proof.
  intros F E H.
  assert (W : processedMessages (fst (run cfg evs s)) = processedMessages s).
  { clear H. revert s. induction evs as [|ev r IH]; intro s; [reflexivity|].
    simpl in F. apply andb_true_iff in F. destruct F as [F1 F2].
    rewrite run_cons, andThen_fst, (IH F2).
    destruct (step_window cfg ev s) as [K | [c [m' [e' [-> _]]]]];
      [assumption | discriminate]. }
  split; [exact W|].
  apply on_message_duplicate; [assumption | now rewrite W].
Qed.

Lemma window_survives_reconnects_witness :
  processedMessages
    (fst (run default_config
              [SocketClose 0%nat 1006; TimerFires 0%nat; SocketOpen 1%nat]
              (fst (run default_config (text_frames 7 1) (fst trigger)))))
    = [Some 7] /\
  on_message default_config (Parsed (text_message (Some 7) "x"))
    (fst (run default_config
              [SocketClose 0%nat 1006; TimerFires 0%nat; SocketOpen 1%nat]
              (fst (run default_config (text_frames 7 1) (fst trigger)))))
  = (fst (run default_config
              [SocketClose 0%nat 1006; TimerFires 0%nat; SocketOpen 1%nat]
              (fst (run default_config (text_frames 7 1) (fst trigger)))),
     [ELog (LogDuplicate (Some 7))]).
Proof.
  apply (window_survives_reconnects default_config
           [SocketClose 0%nat 1006; TimerFires 0%nat; SocketOpen 1%nat]
           (fst (run default_config (text_frames 7 1) (fst trigger)))
           (text_message (Some 7) "x")
           (envelope_with (Some 7) (Some (mkDataMessage (Some "x") None None None))));
    reflexivity.
Defined.

(** X7. A frame that parses and has no envelope goes unnoticed: a run with
    such a frame in it ends in the same state and performs the same effects
    as the run without it. *)
Theorem frame_without_envelope_is_ignored
  (cfg : Config) (evs1 evs2 : list Event) (c : conn) (m : Message) (s : State) :
  envelope m = None ->
  run cfg (evs1 ++ SocketMessage c (Parsed m) :: evs2) s = run cfg (evs1 ++ evs2) s.
Proof.
  intro E. rewrite !run_app. unfold andThen.
  destruct (run cfg evs1 s) as [s1 o1].
  rewrite run_cons. unfold andThen.
  assert (St : step cfg (SocketMessage c (Parsed m)) s1 = (s1, [])).
  { unfold step, on_message. rewrite E. now destruct (c <? nconn s1)%nat. }
  rewrite St. now destruct (run cfg evs2 s1).
Qed.

Lemma frame_without_envelope_is_ignored_witness :
  run default_config
      (text_frames 1 2 ++ SocketMessage 0%nat (Parsed (mkMessage (Some "+491") None))
                       :: text_frames 2 2)
      (fst trigger)
  = run default_config (text_frames 1 2 ++ text_frames 2 2) (fst trigger).
Proof.
  apply frame_without_envelope_is_ignored. reflexivity.
Defined.

(** ** The filter settings *)



(** X9. With the three ignore settings all off, a frame on an existing
    socket whose timestamp the window does not hold is emitted as soon as it
    has a text, an attachment or a reaction. *)
Theorem content_is_emitted_by_default
  (cfg : Config) (s : State) (c : conn) (m : Message) (e : Envelope) :
  ignoreMessages cfg = false -> ignoreAttachments cfg = false ->
  ignoreReactions cfg = false ->
  (c < nconn s)%nat -> envelope m = Some e ->
  Set_has (timestamp e) (processedMessages s) = false ->
  ev_messageText (processedMessage m e) <> "" \/
  ev_attachments (processedMessage m e) <> [] \/
  ev_reactions (processedMessage m e) <> [] ->
  emitted (snd (step cfg (SocketMessage c (Parsed m)) s)) = [processedMessage m e].
Proof.
  intros Im Ia Ir L E H Content.
  unfold step. apply Nat.ltb_lt in L. rewrite L.
  destruct (on_message_fresh cfg s m e E H) as [_ ->].
  assert (Hi : ignored cfg (processedMessage m e) = false).
  { unfold ignored. now rewrite Im, Ia, Ir. }
  assert (He : empty_message (processedMessage m e) = false).
  { unfold empty_message. destruct Content as [T | [A | R]].
    - apply String.eqb_neq in T. now rewrite T.
    - destruct (ev_attachments (processedMessage m e)); [congruence|].
      cbn [List.length Nat.eqb]. now rewrite andb_false_r.
    - destruct (ev_reactions (processedMessage m e)); [congruence|].
      cbn [List.length Nat.eqb]. now rewrite andb_false_r. }
  unfold classify. now rewrite He, Hi.
Qed.

Lemma content_is_emitted_by_default_witness :
  emitted (snd (step default_config
                     (SocketMessage 0%nat (Parsed (attachment_message (Some 9))))
                     (fst trigger)))
    = [processedMessage (attachment_message (Some 9))
         (envelope_with (Some 9)
            (Some (mkDataMessage None (Some [JObj []]) None None)))].
Proof.
  apply (content_is_emitted_by_default default_config (fst trigger) 0%nat
           (attachment_message (Some 9))
           (envelope_with (Some 9)
              (Some (mkDataMessage None (Some [JObj []]) None None))));
    try reflexivity.
  - simpl. lia.
  - right. left. discriminate.
Defined.

(** ** Stop, timers and sockets *)

(** X10. Stop is idempotent: a second call finds the flag set and both
    variables cleared; it changes nothing, clears no timer, closes no socket
    and only writes its log line. *)
Theorem stop_is_idempotent (s : State) :
  closeFunction (fst (closeFunction s))
    = (fst (closeFunction s), [ELog LogStopped]).
Proof. rewrite (closeFunction_eq s). simpl. now rewrite closeFunction_eq. Qed.

Lemma In_timeouts (t : timer) (d : Z) (o : list effect) :
  In (ESetTimeout t d) o -> In t (timeouts o).
Proof.
  intro H. unfold timeouts. apply in_flat_map.
  exists (ESetTimeout t d). split; [assumption | now left].
Qed.

Lemma step_timeout_delay (cfg : Config) (ev : Event) (s : State) (t : timer) (d : Z) :
  In (ESetTimeout t d) (snd (step cfg ev s)) -> d = reconnectDelay cfg.
Proof.
  destruct ev as [c|c f|c|c code|t0|]; unfold step.
  - unfold on_open. destruct (c <? nconn s)%nat; simpl; intuition discriminate.
  - destruct (c <? nconn s)%nat; [|intros []].
    intro H. apply In_timeouts in H.
    destruct (on_message_shape cfg f s) as [w [_ [_ T]]]. rewrite T in H. destruct H.
  - unfold on_error. destruct (c <? nconn s)%nat; [|intros []].
    destruct (isClosed s); simpl; intuition (try discriminate; congruence).
  - unfold on_close. destruct (c <? nconn s)%nat; [|intros []].
    destruct (isClosed s); simpl; intuition (try discriminate; congruence).
  - destruct (existsb (Nat.eqb t0) (pending s)); [|intros []].
    unfold connectWebSocket. simpl. destruct (isClosed s); simpl;
      intuition discriminate.
  - rewrite closeFunction_eq. simpl.
    destruct (reconnectTimeout s); destruct (ws s); simpl; intuition discriminate.
Qed.

(** X11. The reconnect delay is fixed: every timer that is ever set carries
    the configured number of seconds, in milliseconds, and for a parameter
    within its declared range of 1 to 60 seconds that is between 1000 and
    60000. *)
Theorem reconnect_delay_is_fixed
  (seconds : Z) (im ia ir : bool) (evs : list Event) (s : State) (t : timer) (d : Z) :
  1 <= seconds <= 60 ->
  In (ESetTimeout t d) (snd (run (readParameters seconds im ia ir) evs s)) ->
  d = seconds * 1000 /\ 1000 <= d <= 60000.
Proof.
  intros R H.
  assert (E : d = seconds * 1000).
  { revert s H. induction evs as [|ev r IH]; intros s H; [destruct H|].
    rewrite run_cons, andThen_snd in H. apply in_app_or in H.
    destruct H as [H|H]; [|now apply (IH _ H)].
    now apply step_timeout_delay in H. }
  split; [assumption | lia].
Qed.

Lemma reconnect_delay_is_fixed_witness :
  In (ESetTimeout 0%nat 5000)
     (snd (run (readParameters 5 false false false) [SocketClose 0%nat 1006]
               (fst trigger))) /\
  5000 = 5 * 1000 /\ 1000 <= 5000 <= 60000.
Proof.
  assert (I : In (ESetTimeout 0%nat 5000)
                 (snd (run (readParameters 5 false false false)
                           [SocketClose 0%nat 1006] (fst trigger))))
    by (simpl; tauto).
  split; [exact I|].
  apply (reconnect_delay_is_fixed 5 false false false [SocketClose 0%nat 1006]
           (fst trigger) 0%nat 5000); [lia | exact I].
Defined.

Lemma length_remove_timer_In (t : timer) (p : list timer) :
  In t p -> (List.length (remove_timer t p) < List.length p)%nat.
Proof.
  unfold remove_timer, timer in *. induction p as [|x r IH]; simpl; [intros []|].
  intros [-> | H].
  - rewrite Nat.eqb_refl. simpl.
    pose proof (filter_length_le (fun x => negb (Nat.eqb x t)) r). lia.
  - specialize (IH H). destruct (Nat.eqb x t); simpl; lia.
Qed.

Lemma step_sockets_need_timers (cfg : Config) (ev : Event) (s : State) :
  (List.length (connects (snd (step cfg ev s)))
   + List.length (pending (fst (step cfg ev s)))
   <= List.length (pending s) + List.length (timeouts (snd (step cfg ev s))))%nat.
Proof.
  unfold timer, conn in *.
  destruct ev as [c|c f|c|c code|t|]; unfold step.
  - unfold on_open. destruct (c <? nconn s)%nat; simpl; lia.
  - destruct (c <? nconn s)%nat; [|simpl; lia].
    destruct (on_message_shape cfg f s) as [w [-> [-> ->]]]. simpl. lia.
  - unfold on_error. destruct (c <? nconn s)%nat; [|simpl; lia].
    destruct (isClosed s); simpl; lia.
  - unfold on_close. destruct (c <? nconn s)%nat; [|simpl; lia].
    destruct (isClosed s); simpl; lia.
  - destruct (existsb (Nat.eqb t) (pending s)) eqn:E; [|simpl; lia].
    apply existsb_exists in E. destruct E as [x [I E]].
    apply Nat.eqb_eq in E. subst x.
    pose proof (length_remove_timer_In _ _ I).
    unfold connectWebSocket. simpl.
    destruct (isClosed s); simpl; unfold timer in *; lia.
  - rewrite closeFunction_eq. simpl.
    destruct (reconnectTimeout s) as [t|]; destruct (ws s); simpl;
      try lia;
      pose proof (filter_length_le (fun x => negb (Nat.eqb x t)) (pending s));
      unfold remove_timer, timer in *; lia.
Qed.

(** X12. Every socket that a run creates is paid for by a timer, and a timer
    pays once: the number of sockets created, together with the timers still
    pending at the end, is at most the number of timers pending at the
    beginning plus the number set on the way. *)
Theorem sockets_need_timers (cfg : Config) (evs : list Event) (s : State) :
  (List.length (connects (snd (run cfg evs s)))
   + List.length (pending (fst (run cfg evs s)))
   <= List.length (pending s) + List.length (timeouts (snd (run cfg evs s))))%nat.
Proof.
  revert s. induction evs as [|ev r IH]; intro s; [simpl; lia|].
  rewrite run_cons, andThen_fst, andThen_snd, connects_app, timeouts_app.
  rewrite !length_app.
  pose proof (step_sockets_need_timers cfg ev s).
  pose proof (IH (fst (step cfg ev s))). lia.
Qed.

Lemma step_ws_is_newest (cfg : Config) (ev : Event) (s : State) :
  ws_is_newest s -> ws_is_newest (fst (step cfg ev s)).
Proof.
  unfold ws_is_newest. intro Inv.
  destruct ev as [c|c f|c|c code|t|]; unfold step.
  - unfold on_open. now destruct (c <? nconn s)%nat.
  - destruct (c <? nconn s)%nat; [|assumption].
    destruct (on_message_shape cfg f s) as [w [-> _]]. exact Inv.
  - unfold on_error. destruct (c <? nconn s)%nat; [|assumption].
    destruct (isClosed s) eqn:C; simpl; [now rewrite C | now rewrite C].
  - unfold on_close. destruct (c <? nconn s)%nat; [|assumption].
    destruct (isClosed s) eqn:C; simpl; [now rewrite C | now rewrite C].
  - destruct (existsb (Nat.eqb t) (pending s)); [|assumption].
    unfold connectWebSocket. simpl.
    destruct (isClosed s) eqn:C; simpl; [now rewrite C|].
    right. rewrite C. repeat split. lia.
  - rewrite closeFunction_eq. simpl. now left.
Qed.

Lemma run_ws_is_newest (cfg : Config) (evs : list Event) (s : State) :
  ws_is_newest s -> ws_is_newest (fst (run cfg evs s)).
Proof.
  revert s. induction evs as [|ev r IH]; intros s Inv; [assumption|].
  rewrite run_cons, andThen_fst. apply IH. now apply step_ws_is_newest.
Qed.

Lemma closeFunction_closes (s : State) (c : conn) :
  ws_is_newest s ->
  (In (ECloseSocket c) (snd (closeFunction s)) <->
   isClosed s = false /\ c = pred (nconn s)).
Proof.
  intro Inv. rewrite closeFunction_eq. cbn [snd].
  destruct Inv as [[C W] | [C [W P]]]; rewrite C, W.
  - split; [|intros [K _]; discriminate].
    destruct (reconnectTimeout s); simpl; intuition discriminate.
  - split.
    + destruct (reconnectTimeout s); simpl;
        intuition (try discriminate; congruence).
    + intros [_ ->]. destruct (reconnectTimeout s); simpl; tauto.
Qed.

(** X13. In every state that the trigger reaches, [ws] holds the socket
    created last while the trigger is not stopped, and nothing once it is.
    So a stop closes the socket created last, if the trigger was not stopped
    before, and never any other socket. *)
Theorem stop_closes_newest_socket (cfg : Config) (evs : list Event) (c : conn) :
  ws_is_newest (fst (run cfg evs (fst trigger))) /\
  (In (ECloseSocket c) (snd (closeFunction (fst (run cfg evs (fst trigger))))) <->
   isClosed (fst (run cfg evs (fst trigger))) = false /\
   c = pred (nconn (fst (run cfg evs (fst trigger))))).
Proof.
  assert (Inv : ws_is_newest (fst (run cfg evs (fst trigger)))).
  { apply run_ws_is_newest. right. simpl. repeat split. lia. }
  split; [exact Inv | now apply closeFunction_closes].
Qed.

(** X14. One failure reported by one event, an error or a close, before any
    stop: one timer is set, with the configured delay, and [reconnectTimeout]
    holds it; when it fires it is no longer pending, one socket is created,
    and [ws] holds the new socket. *)
Theorem single_failure_reconnects_once
  (cfg : Config) (s : State) (c : conn) (ev : Event) :
  isClosed s = false -> (c < nconn s)%nat ->
  ev = SocketError c \/ (exists code, ev = SocketClose c code) ->
  timeouts (snd (step cfg ev s)) = [ntimer s] /\
  In (ESetTimeout (ntimer s) (reconnectDelay cfg)) (snd (step cfg ev s)) /\
  connects (snd (step cfg ev s)) = [] /\
  reconnectTimeout (fst (step cfg ev s)) = Some (ntimer s) /\
  pending (fst (step cfg ev s)) = ntimer s :: pending s /\
  snd (step cfg (TimerFires (ntimer s)) (fst (step cfg ev s)))
    = [ENewWebSocket (nconn s)] /\
  ws (fst (step cfg (TimerFires (ntimer s)) (fst (step cfg ev s))))
    = Some (nconn s) /\
  ~ In (ntimer s)
       (pending (fst (step cfg (TimerFires (ntimer s)) (fst (step cfg ev s))))).
Proof.
  intros H L Ev. apply Nat.ltb_lt in L.
  assert (S1 : exists l,
             step cfg ev s
             = (set_reconnectTimeout (Some (ntimer s))
                  (set_pending (ntimer s :: pending s)
                     (set_ntimer (S (ntimer s)) s)),
                [ELog l; ESetTimeout (ntimer s) (reconnectDelay cfg)])).
  { destruct Ev as [-> | [code ->]]; unfold step; rewrite L.
    - exists LogSocketError. unfold on_error. now rewrite H.
    - exists (LogSocketClosed code). unfold on_close. now rewrite H. }
  destruct S1 as [l S1]. rewrite S1.
  split; [reflexivity|]. split; [simpl; tauto|]. split; [reflexivity|].
  split; [reflexivity|]. split; [reflexivity|].
  unfold step. simpl. rewrite Nat.eqb_refl. simpl.
  unfold connectWebSocket. simpl. rewrite H. simpl.
  split; [reflexivity|]. split; [reflexivity|].
  rewrite In_remove_timer. tauto.
Qed.

Lemma single_failure_reconnects_once_witness :
  timeouts (snd (step default_config (SocketError 0%nat) (fst trigger))) = [0%nat] /\
  snd (step default_config (TimerFires 0%nat)
            (fst (step default_config (SocketError 0%nat) (fst trigger))))
    = [ENewWebSocket 1%nat].
Proof.
  pose proof (single_failure_reconnects_once default_config (fst trigger) 0%nat
                (SocketError 0%nat) eq_refl (Nat.lt_0_succ 0) (or_introl eq_refl))
    as [T [_ [_ [_ [_ [F _]]]]]].
  split; [exact T | exact F].
Defined.

(** ** The socket URL *)

Lemma substring_0_0 (s : string) : substring 0 0 s = EmptyString.
Proof. now destruct s. Qed.

(** [String_replace] is the replacement at the position that [index] finds. *)
Lemma String_replace_index (pat rep s : string) :
  String_replace pat rep s
  = match index 0 pat s with
    | Some i => String.append (substring 0 i s)
                  (String.append rep (drop (i + String.length pat) s))
    | None => s
    end.
Proof.
  induction s as [|b s IH].
  - destruct pat as [|a pat]; reflexivity.
  - cbn [String_replace index].
    destruct (prefix pat (String b s)) eqn:P.
    + rewrite substring_0_0. reflexivity.
    + rewrite IH. destruct (index 0 pat s) as [i|]; reflexivity.
Qed.

(** X15. The socket URL is the base URL with its first [http], wherever it
    stands, replaced by [ws], followed by [/v1/receive/] and the phone
    number; what stands before and after that first [http] is kept as it is,
    and a base URL without [http] is used unchanged. *)
Theorem wsUrl_first_http (apiUrl phoneNumber : string) :
  wsUrl apiUrl phoneNumber
  = String.append
      match index 0 "http" apiUrl with
      | Some i => String.append (substring 0 i apiUrl)
                    (String.append "ws" (drop (i + 4) apiUrl))
      | None => apiUrl
      end
      (String.append "/v1/receive/" phoneNumber).
Proof. unfold wsUrl. now rewrite String_replace_index. Qed.

Lemma String_replace_unfold (pat rep s : string) :
  String_replace pat rep s
  = if String.prefix pat s
    then String.append rep (drop (String.length pat) s)
    else match s with
         | EmptyString => EmptyString
         | String c r => String c (String_replace pat rep r)
         end.
Proof. now destruct s. Qed.

Lemma prefix_append (pat rest : string) :
  String.prefix pat (String.append pat rest) = true.
Proof.
  induction pat as [|a pat IH]; [now destruct rest|].
  simpl. now destruct (Ascii.ascii_dec a a).
Qed.

Lemma drop_append (pat rest : string) :
  drop (String.length pat) (String.append pat rest) = rest.
Proof. induction pat as [|a pat IH]; [reflexivity | exact IH]. Qed.

Lemma String_replace_prefix (pat rep rest : string) :
  String_replace pat rep (String.append pat rest) = String.append rep rest.
Proof. now rewrite String_replace_unfold, prefix_append, drop_append. Qed.

(** X16. For a base URL that begins with [http], and so for one that begins
    with [https], the scheme becomes [ws], respectively [wss], and all that
    follows is kept, a later [http] included. *)
Theorem wsUrl_scheme (rest phoneNumber : string) :
  wsUrl (String.append "http" rest) phoneNumber
    = String.append "ws" (String.append rest (String.append "/v1/receive/" phoneNumber)) /\
  wsUrl (String.append "https" rest) phoneNumber
    = String.append "wss" (String.append rest (String.append "/v1/receive/" phoneNumber)).
Proof.
  unfold wsUrl. split.
  - now rewrite String_replace_prefix.
  - change (String.append "https" rest)
      with (String.append "http" (String.append "s" rest)).
    now rewrite String_replace_prefix.
Qed.

(** ** The window as the handler fills it, on a sample *)

Lemma run_records_all_witness :
  processedMessages
    (fst (run default_config
              (map (fun m => SocketMessage 0%nat (Parsed m))
                   [text_message (Some 3) "a"; bare_message (Some 1)])
              (fst trigger)))
  = record_all [3; 1] [].
Proof.
  apply (run_records_all default_config 0%nat
           [text_message (Some 3) "a"; bare_message (Some 1)] [3; 1]).
  - repeat constructor; eexists; split; reflexivity.
  - apply distinctb_NoDup. reflexivity.
  - intros t _ [].
  - simpl. lia.
Defined.

(** ** Reconnecting again and again *)

Lemma single_failure_step (cfg : Config) (s : State) (c : conn) (code : Z) :
  isClosed s = false -> (c < nconn s)%nat ->
  exists s2,
    s2 = fst (step cfg (TimerFires (ntimer s)) (fst (step cfg (SocketClose c code) s))) /\
    (connects (snd (step cfg (SocketClose c code) s)) = [] /\
     timeouts (snd (step cfg (SocketClose c code) s)) = [ntimer s] /\
     connects (snd (step cfg (TimerFires (ntimer s))
                         (fst (step cfg (SocketClose c code) s)))) = [nconn s] /\
     timeouts (snd (step cfg (TimerFires (ntimer s))
                         (fst (step cfg (SocketClose c code) s)))) = []) /\
    isClosed s2 = false /\ nconn s2 = S (nconn s) /\ ntimer s2 = S (ntimer s) /\
    ws s2 = Some (nconn s).
Proof.
  intros H L. apply Nat.ltb_lt in L.
  assert (S1 : step cfg (SocketClose c code) s
               = (set_reconnectTimeout (Some (ntimer s))
                    (set_pending (ntimer s :: pending s)
                       (set_ntimer (S (ntimer s)) s)),
                  [ELog (LogSocketClosed code);
                   ESetTimeout (ntimer s) (reconnectDelay cfg)])).
  { unfold step. rewrite L. unfold on_close. now rewrite H. }
  eexists. split; [reflexivity|]. rewrite S1.
  unfold step. simpl. rewrite Nat.eqb_refl. simpl.
  unfold connectWebSocket. simpl. rewrite H. simpl. now repeat split.
Qed.

(** X18. There is no limit on the number of reconnects.  Before any stop,
    however many times the socket created last closes and the timer set for
    it fires, each failure sets one timer and each timer creates one socket,
    and the trigger is as ready for the next failure as it was for the
    first. *)
Theorem reconnects_without_limit (cfg : Config) (n : nat) (s : State) :
  isClosed s = false -> (0 < nconn s)%nat ->
  connects (snd (run cfg (failures (pred (nconn s)) (ntimer s) n) s))
    = seq (nconn s) n /\
  timeouts (snd (run cfg (failures (pred (nconn s)) (ntimer s) n) s))
    = seq (ntimer s) n /\
  isClosed (fst (run cfg (failures (pred (nconn s)) (ntimer s) n) s)) = false /\
  nconn (fst (run cfg (failures (pred (nconn s)) (ntimer s) n) s))
    = (nconn s + n)%nat.
Proof.
  revert s. induction n as [|n IH]; intros s C P.
  - simpl. repeat split; try assumption. lia.
  - assert (L : (pred (nconn s) < nconn s)%nat) by lia.
    destruct (single_failure_step cfg s (pred (nconn s)) 1006 C L)
      as [s2 [R [[O1 [O2 [O3 O4]]] [C2 [N2 [T2 W2]]]]]].
    cbn [failures]. rewrite run_cons, andThen_fst, andThen_snd.
    rewrite run_cons, andThen_fst, andThen_snd.
    rewrite !connects_app, !timeouts_app, O1, O2, O3, O4, <- R.
    assert (P2 : (0 < nconn s2)%nat) by lia.
    specialize (IH s2 C2 P2).
    replace (pred (nconn s2)) with (S (pred (nconn s))) in IH by lia.
    rewrite T2, N2 in IH.
    destruct IH as [I1 [I2 [I3 I4]]].
    rewrite I1, I2, I3, I4. simpl.
    repeat split. lia.
Qed.

Lemma reconnects_without_limit_witness :
  connects (snd (run default_config (failures 0%nat 0%nat 25) (fst trigger))) = seq 1 25 /\
  timeouts (snd (run default_config (failures 0%nat 0%nat 25) (fst trigger))) = seq 0 25.
Proof.
  pose proof (reconnects_without_limit default_config 25 (fst trigger) eq_refl
                (Nat.lt_0_succ 0)) as [K [T _]].
  split; [exact K | exact T].
Defined.
